(** * tiny-excel: the Sheet and TinyExcel classes, embedded and verified

    Source files: [sheet.ts] (class [Sheet]: [getCell], [setCell],
    [_getSharedString]) and [lib/tiny-excel.ts] (class [TinyExcel]: [load],
    [getSheet], [saveBuffer]).

    The trees handled by the code are what fast-xml-parser produces: an
    element is an object, an attribute is a member whose name starts with
    [@_], and a repeated child is an array while a child that occurs once is
    the bare object.  The embedding keeps that three-way shape ([children])
    because the code branches on it.

    Numbers are modelled by [Z]: an integer stands for the JS number of that
    value.  Every integer up to 2^53 in magnitude is a JS number, is the
    result of [parseInt] on its digits and has its digits as [toString]
    ([isSafeInteger]); a statement that depends on the value of [parseInt] or
    on the text of [toString] carries that bound.  Fractions, [NaN] and the
    infinities are outside the model.  Event listeners are not modelled:
    [emit] with no listener registered changes nothing. *)

From Stdlib Require Import ZArith String Ascii List Lia.
From Stdlib Require Import Decimal DecimalString DecimalNat DecimalZ.
From stdpp Require Import base option list strings.

Open Scope string_scope.
Open Scope list_scope.

(** ** JavaScript values that occur in the trees *)

(** A text or attribute value after parsing, or a value passed to [setCell]:
    a number or a string. *)
Inductive scalar : Type :=
  | SNum (n : Z)
  | SStr (s : string).

#[global] Instance scalar_eq_dec : EqDecision scalar.
Proof. solve_decision. Defined.

(** A member that may be missing ([undefined]) is an [option]. *)
Definition truthy (v : scalar) : bool :=
  match v with
  | SNum n => negb (n =? 0)%Z
  | SStr s => negb (String.eqb s EmptyString)
  end.

(** [x || null], with [None] for both [undefined] (argument) and [null]
    (result). *)
Definition or_null (x : option scalar) : option scalar :=
  match x with
  | Some v => if truthy v then Some v else None
  | None => None
  end.

(** [x || EmptyString], the empty string of JS. *)
Definition or_empty (x : option scalar) : scalar :=
  match x with
  | Some v => if truthy v then v else SStr EmptyString
  | None => SStr EmptyString
  end.

(** [Number.isSafeInteger]: the integers that a JS number holds exactly,
    together with their neighbours. *)
Definition isSafeInteger (n : Z) : bool := (Z.abs n <=? 2 ^ 53 - 1)%Z.

(** [Number.prototype.toString] on a safe integer: its decimal digits, with
    a minus sign when negative.  Past 2^53 the runtime prints the digits of
    the nearest number it can hold and, from 10^21 on, an exponent form;
    there the model keeps the plain digits. *)
Definition toString (n : Z) : string := NilZero.string_of_int (Z.to_int n).

(** A child element as the parser leaves it: missing, the bare object when it
    occurs once, an array when it is repeated (or was built by the code). *)
Inductive children (A : Type) : Type :=
  | Absent
  | Single (a : A)
  | Many (l : list A).
Arguments Absent {A}.
Arguments Single {A} a.
Arguments Many {A} l.

(** Members the code never reads or writes (styles, spans, ...). *)
Definition members : Type := list (string * string).

(** A [<c>] element: [@_r], [v], [@_t], [f]. *)
Record Cell : Type := mkCell {
  c_r : option string;
  c_v : option scalar;
  c_t : option string;
  c_f : option scalar;
  c_rest : members
}.

(** A [<row>] element: [@_r] and [c]. *)
Record Row : Type := mkRow {
  r_r : option scalar;
  r_c : children Cell;
  r_rest : members
}.

(** A [<si>] element of the shared strings: [t]. *)
Record Si : Type := mkSi {
  si_t : option scalar;
  si_rest : members
}.

(** The parsed worksheet: [worksheet.sheetData.row] and the rest. *)
Record Worksheet : Type := mkWorksheet {
  sheetData_row : children Row;
  ws_rest : members
}.

(** The parsed shared strings: [sst.si] and the rest. *)
Record StringTable : Type := mkStringTable {
  sst_si : children Si;
  sst_rest : members
}.

#[global] Instance members_eq_dec : EqDecision members.
Proof. solve_decision. Defined.
#[global] Instance children_eq_dec {A} `{EqDecision A} : EqDecision (children A).
Proof. solve_decision. Defined.
#[global] Instance Cell_eq_dec : EqDecision Cell.
Proof. solve_decision. Defined.
#[global] Instance Row_eq_dec : EqDecision Row.
Proof. solve_decision. Defined.
#[global] Instance Si_eq_dec : EqDecision Si.
Proof. solve_decision. Defined.

(** ** Exceptions *)

Inductive error : Type :=
  | InvalidCellName   (* new Error("Invalid cell name") *)
  | TypeError.        (* raised by the runtime: not iterable, not a function,
                         member of undefined *)

Inductive result (A : Type) : Type :=
  | Ok (a : A)
  | Throw (e : error).
Arguments Ok {A} a.
Arguments Throw {A} e.

#[global] Instance result_ret : MRet result := fun A a => Ok a.
#[global] Instance result_bind : MBind result := fun A B k m =>
  match m with
  | Ok a => k a
  | Throw e => Throw e
  end.
#[global] Instance result_fmap : FMap result := fun A B f m =>
  match m with
  | Ok a => Ok (f a)
  | Throw e => Throw e
  end.

(** ** The cell-name test [/^[A-Z]+\d+$/] *)

Definition is_upper (a : ascii) : bool :=
  (65 <=? nat_of_ascii a)%nat && (nat_of_ascii a <=? 90)%nat.

Definition is_digit (a : ascii) : bool :=
  (48 <=? nat_of_ascii a)%nat && (nat_of_ascii a <=? 57)%nat.

Fixpoint skip_while (p : ascii -> bool) (s : string) : string :=
  match s with
  | EmptyString => EmptyString
  | String a s' => if p a then skip_while p s' else s
  end.

Fixpoint take_while (p : ascii -> bool) (s : string) : string :=
  match s with
  | EmptyString => EmptyString
  | String a s' => if p a then String a (take_while p s') else EmptyString
  end.

(** [cell_name.match(/^[A-Z]+\d+$/)] is not null.  The two classes are
    disjoint, so the greedy match never backtracks. *)
Definition cell_name_matches (cell_name : string) : bool :=
  match cell_name with
  | String a s1 =>
      is_upper a &&
      match skip_while is_upper s1 with
      | String d s2 =>
          is_digit d &&
          match skip_while is_digit s2 with
          | EmptyString => true
          | String _ _ => false
          end
      | EmptyString => false
      end
  | EmptyString => false
  end.

(** [cell_name.match(/\d+/g)![0]]: the first maximal run of digits. *)
Definition first_digits (cell_name : string) : string :=
  take_while is_digit (skip_while (fun a => negb (is_digit a)) cell_name).

(** [parseInt] on a run of digits that denotes a safe integer: that integer.
    For a longer run the runtime returns the nearest number it can hold
    ([Infinity] in the end); there the model keeps the integer denoted. *)
Definition parseInt (digits : string) : Z :=
  match NilEmpty.uint_of_string digits with
  | Some d => Z.of_uint d
  | None => 0
  end.

(** ** Array access by a property key *)

#[global] Instance uint_eq_dec : EqDecision uint.
Proof. solve_decision. Defined.

(** The array index a string key denotes, if it is the canonical decimal
    form of one (["0"], ["17"]; not the empty string, ["07"], ["-1"]). *)
Definition array_index (key : string) : option nat :=
  match NilEmpty.uint_of_string key with
  | Some d =>
      if decide (unorm d = d) then Some (Z.to_nat (Z.of_uint d)) else None
  | None => None
  end.

(** [arr[key]] for an array of texts.  A number key is an index when it is
    not negative; a string key when it is canonical; ["length"] is the
    array's own member.  A string key that names a member inherited from
    [Array.prototype] or [Object.prototype] (["constructor"], ["push"], ...)
    gives that member in the runtime; the model has no value for it and gives
    [None], so a statement about what a lookup returns is made for the keys
    that [is_offset] accepts. *)
Definition array_get (arr : list (option scalar)) (key : option scalar)
  : option scalar :=
  match key with
  | None => None
  | Some (SNum n) => if (0 <=? n)%Z then mjoin (arr !! Z.to_nat n) else None
  | Some (SStr s) =>
      if String.eqb s "length" then Some (SNum (Z.of_nat (length arr)))
      else match array_index s with
           | Some i => mjoin (arr !! i)
           | None => None
           end
  end.

(** The literal of a cell is an offset into an array: a number, as the
    parser leaves the text of a [<v>], or the canonical decimal text of an
    index, as [setCell] stores a number. *)
Definition is_offset (key : option scalar) : bool :=
  match key with
  | Some (SNum _) => true
  | Some (SStr s) => match array_index s with Some _ => true | None => false end
  | None => false
  end.

(** ** class Sheet *)

Record Sheet : Type := mkSheet {
  _index : nat;
  _data : Worksheet;
  _stringTable : StringTable
}.

Inductive kind : Type := KString | KFormula.

(** [this._stringTable.sst.si.map((si) => si.t)]: only an array has [map]. *)
Definition si_texts (st : StringTable) : result (list (option scalar)) :=
  match sst_si st with
  | Many l => Ok (si_t <$> l)
  | Single _ | Absent => Throw TypeError
  end.

(** [for (const row of sheetData)] and [sheetData.find]: only an array is
    iterable and has [find]. *)
Definition sheetData (ws : Worksheet) : result (list Row) :=
  match sheetData_row ws with
  | Many l => Ok l
  | Single _ | Absent => Throw TypeError
  end.

(** [Array.isArray(row.c) ? row.c : [row.c]]; a missing [c] gives
    [[undefined]]. *)
Definition cells_of (row : Row) : list (option Cell) :=
  match r_c row with
  | Many l => Some <$> l
  | Single c => [Some c]
  | Absent => [None]
  end.

(** The inner loop of [getCell], which is also [cells.some(...)] of
    [setCell]: the first cell whose [@_r] is [cell_name].  Reading [@_r] of
    [undefined] throws. *)
Fixpoint scan_cells (cell_name : string) (cells : list (option Cell))
  : result (option Cell) :=
  match cells with
  | [] => Ok None
  | None :: _ => Throw TypeError
  | Some c :: rest =>
      if decide (c_r c = Some cell_name) then Ok (Some c)
      else scan_cells cell_name rest
  end.

(** The outer loop of [getCell]. *)
Fixpoint scan_rows (cell_name : string) (rows : list Row)
  : result (option Cell) :=
  match rows with
  | [] => Ok None
  | row :: rest =>
      match scan_cells cell_name (cells_of row) with
      | Throw e => Throw e
      | Ok (Some c) => Ok (Some c)
      | Ok None => scan_rows cell_name rest
      end
  end.

Definition getCell (sh : Sheet) (cell_name : string) : result (option scalar) :=
  if negb (cell_name_matches cell_name) then Throw InvalidCellName else
  stringTable ← si_texts (_stringTable sh);
  rows ← sheetData (_data sh);
  found ← scan_rows cell_name rows;
  mret (match found with
        | Some c => or_null (array_get stringTable (c_v c))
        | None => None
        end).

(** [sheetData.find((row) => cells.some(...))]: the position of the first row
    that holds a cell named [cell_name]. *)
Fixpoint find_row (cell_name : string) (rows : list Row)
  : result (option (nat * Row)) :=
  match rows with
  | [] => Ok None
  | row :: rest =>
      match scan_cells cell_name (cells_of row) with
      | Throw e => Throw e
      | Ok (Some _) => Ok (Some (0, row))
      | Ok None =>
          match find_row cell_name rest with
          | Throw e => Throw e
          | Ok (Some (i, r)) => Ok (Some (S i, r))
          | Ok None => Ok None
          end
      end
  end.

(** [_getSharedString(old_value, value)]: [indexOf] compares with [===] and
    returns the first position; the hit is overwritten in place, a miss
    appends.  The result carries the table as the call leaves it. *)
Definition _getSharedString (st : StringTable) (old_value : scalar)
    (value : string) : StringTable * result nat :=
  match sst_si st with
  | Many si =>
      let stringTable := si_t <$> si in
      match list_find (fun t => t = Some old_value) stringTable with
      | Some (index, _) =>
          (mkStringTable
             (Many (alter (fun e => mkSi (Some (SStr value)) (si_rest e)) index si))
             (sst_rest st),
           Ok index)
      | None =>
          (mkStringTable (Many (si ++ [mkSi (Some (SStr value)) []])) (sst_rest st),
           Ok (length (stringTable ++ [Some (SStr value)]) - 1))
      end
  | Single _ | Absent => (st, Throw TypeError)
  end.

(** [{ "@_r": row, c: [] }] and [{ "@_r": cell_name }]. *)
Definition new_row (cell_name : string) : Row :=
  mkRow (Some (SNum (parseInt (first_digits cell_name)))) (Many []) [].

Definition new_cell (cell_name : string) : Cell :=
  mkCell (Some cell_name) None None None [].

(** The three assignments of [setCell]. *)
Definition put_formula (value : scalar) (c : Cell) : Cell :=
  mkCell (c_r c) None None (Some value) (c_rest c).

Definition put_number (n : Z) (c : Cell) : Cell :=
  mkCell (c_r c) (Some (SStr (toString n))) None (c_f c) (c_rest c).

Definition put_string (stringIndex : nat) (c : Cell) : Cell :=
  mkCell (c_r c) (Some (SNum (Z.of_nat stringIndex))) (Some "s") (c_f c) (c_rest c).

(** State updates: the objects are mutated in place, so the sheet is rebuilt
    around the changed part. *)
Definition with_rows (sh : Sheet) (rows : list Row) : Sheet :=
  mkSheet (_index sh) (mkWorksheet (Many rows) (ws_rest (_data sh)))
          (_stringTable sh).

Definition with_table (sh : Sheet) (st : StringTable) : Sheet :=
  mkSheet (_index sh) (_data sh) st.

Definition with_cells (row : Row) (cells : list Cell) : Row :=
  mkRow (r_r row) (Many cells) (r_rest row).

Definition alter_cell (f : Cell -> Cell) (ci : nat) (row : Row) : Row :=
  match r_c row with
  | Many cells => with_cells row (alter f ci cells)
  | Single _ | Absent => row
  end.

Definition update_cell (sh : Sheet) (ri ci : nat) (f : Cell -> Cell) : Sheet :=
  match sheetData_row (_data sh) with
  | Many rows => with_rows sh (alter (alter_cell f ci) ri rows)
  | Single _ | Absent => sh
  end.

(** [setCell(cell_name, value, type)].  The first component is the sheet the
    call leaves behind, also when it throws. *)
Definition setCell (sh : Sheet) (cell_name : string) (value : scalar)
    (type : kind) : Sheet * result unit :=
  if negb (cell_name_matches cell_name) then (sh, Throw InvalidCellName) else
  match sheetData (_data sh) with
  | Throw e => (sh, Throw e)
  | Ok rows0 =>
  match find_row cell_name rows0 with
  | Throw e => (sh, Throw e)
  | Ok found =>
      (* target row, created and pushed when absent *)
      let '(sh1, ri, target) :=
        match found with
        | Some (i, row) => (sh, i, row)
        | None =>
            (with_rows sh (rows0 ++ [new_row cell_name]), length rows0,
             new_row cell_name)
        end in
      match r_c target with
      | Single _ | Absent => (sh1, Throw TypeError)   (* target.c.find *)
      | Many cells0 =>
          (* target cell, created and pushed when absent *)
          let '(sh2, ci) :=
            match list_find (fun c => c_r c = Some cell_name) cells0 with
            | Some (j, _) => (sh1, j)
            | None =>
                (match sheetData_row (_data sh1) with
                 | Many rows1 =>
                     with_rows sh1
                       (<[ri := with_cells target (cells0 ++ [new_cell cell_name])]> rows1)
                 | Single _ | Absent => sh1
                 end,
                 length cells0)
            end in
          match getCell sh2 cell_name with
          | Throw e => (sh2, Throw e)
          | Ok current =>
              let currentValue := or_empty current in
              match type, value with
              | KFormula, _ =>
                  (update_cell sh2 ri ci (put_formula value), Ok ())
              | KString, SNum n =>
                  (update_cell sh2 ri ci (put_number n), Ok ())
              | KString, SStr s =>
                  match _getSharedString (_stringTable sh2) currentValue s with
                  | (st, Ok stringIndex) =>
                      (update_cell (with_table sh2 st) ri ci
                         (put_string stringIndex), Ok ())
                  | (st, Throw e) => (with_table sh2 st, Throw e)
                  end
              end
          end
      end
  end
  end.

(** The last part of [setCell], from the read of the current value on: the
    target cell is at position [ci] of row [ri].  [setCell_located] and
    [setCell_created] show that [setCell] ends with it. *)
Definition assign (sh2 : Sheet) (ri ci : nat) (cell_name : string)
    (value : scalar) (type : kind) : Sheet * result unit :=
  match getCell sh2 cell_name with
  | Throw e => (sh2, Throw e)
  | Ok current =>
      let currentValue := or_empty current in
      match type, value with
      | KFormula, _ => (update_cell sh2 ri ci (put_formula value), Ok ())
      | KString, SNum n => (update_cell sh2 ri ci (put_number n), Ok ())
      | KString, SStr s =>
          match _getSharedString (_stringTable sh2) currentValue s with
          | (st, Ok stringIndex) =>
              (update_cell (with_table sh2 st) ri ci (put_string stringIndex),
               Ok ())
          | (st, Throw e) => (with_table sh2 st, Throw e)
          end
      end
  end.

(** The scan of [getCell] alone: the first cell named [cell_name]. *)
Definition cell_at (sh : Sheet) (cell_name : string) : result (option Cell) :=
  rows ← sheetData (_data sh);
  scan_rows cell_name rows.

(** ** Shapes of trees *)

Definition is_many {A} (c : children A) : bool :=
  match c with
  | Many _ => true
  | Single _ | Absent => false
  end.

Definition rows_of (sh : Sheet) : list Row :=
  match sheetData_row (_data sh) with
  | Many rows => rows
  | Single row => [row]
  | Absent => []
  end.

(** Every repeated child is an array: rows, the cells of each row, and the
    shared strings. *)
Definition normalized (sh : Sheet) : bool :=
  is_many (sheetData_row (_data sh)) &&
  forallb (fun row => is_many (r_c row)) (rows_of sh) &&
  is_many (sst_si (_stringTable sh)).

(** The test of [target.c.find]: the cell is named [a]. *)
Abbreviation named a := (fun x : Cell => c_r x = Some a).

(** A row in which the scan finds no cell named [cell_name] and does not
    throw. *)
Definition clean (cell_name : string) (row : Row) : Prop :=
  scan_cells cell_name (cells_of row) = Ok None.

(** The first cell named [cell_name], in document order, is [c]: cell [ci]
    of the row that follows [pre]. *)
Definition located (cell_name : string) (sh : Sheet) (pre : list Row)
    (row : Row) (post : list Row) (cells : list Cell) (ci : nat) (c : Cell)
  : Prop :=
  sheetData_row (_data sh) = Many (pre ++ row :: post) /\
  Forall (clean cell_name) pre /\
  r_c row = Many cells /\
  list_find (fun x => c_r x = Some cell_name) cells = Some (ci, c).

(** The row identifiers of a sheet, as they are serialized: the parser
    leaves the attribute text, [setCell] stores a number. *)
Definition row_id (row : Row) : option string :=
  match r_r row with
  | Some (SNum n) => Some (toString n)
  | Some (SStr s) => Some s
  | None => None
  end.

Definition present {A} (o : option A) : bool :=
  match o with
  | Some _ => true
  | None => false
  end.

(** The value kinds a cell stores: a formula cell has no literal and no type
    marker, a shared-string cell has no formula. *)
Definition kinds_exclusive (c : Cell) : bool :=
  match c_f c with
  | Some _ => negb (present (c_v c)) && negb (present (c_t c))
  | None => true
  end.

(** ** class TinyExcel *)

(** [Unzipped]: an object from entry names to contents, keys in insertion
    order. *)
Definition bytes : Type := list Byte.byte.
Definition entries : Type := list (string * bytes).

Fixpoint obj_get (o : entries) (key : string) : option bytes :=
  match o with
  | [] => None
  | (k, v) :: o' => if String.eqb k key then Some v else obj_get o' key
  end.

(** [o[key] = v]: an existing key keeps its place. *)
Fixpoint obj_set (o : entries) (key : string) (v : bytes) : entries :=
  match o with
  | [] => [(key, v)]
  | (k, w) :: o' =>
      if String.eqb k key then (k, v) :: o' else (k, w) :: obj_set o' key v
  end.

(** [Map<number, Record<string, any>>], in insertion order. *)
Definition sheet_map : Type := list (nat * Worksheet).

Fixpoint Map_get (m : sheet_map) (index : nat) : option Worksheet :=
  match m with
  | [] => None
  | (i, ws) :: m' => if Nat.eqb i index then Some ws else Map_get m' index
  end.

Fixpoint Map_set (m : sheet_map) (index : nat) (ws : Worksheet) : sheet_map :=
  match m with
  | [] => [(index, ws)]
  | (i, w) :: m' =>
      if Nat.eqb i index then (i, ws) :: m' else (i, w) :: Map_set m' index ws
  end.

Record TinyExcel : Type := mkTinyExcel {
  _path : string;
  _file : entries;
  _sheets : sheet_map;
  _sharedStrings : StringTable
}.

Inductive load_error : Type :=
  | SharedStringsNotFound     (* new Error("Shared strings not found.") *)
  | SheetNotFound (i : nat)   (* new Error(`Sheet with index ${i} not found.`) *)
  | Unreadable (key : string).
                              (* thrown by decoder.decode or xml.parse on the
                                 contents of the entry [key] *)

(** [`xl/worksheets/sheet${index + 1}.xml`]. *)
Definition sheet_entry (index : nat) : string :=
  String.append "xl/worksheets/sheet"
    (String.append (toString (Z.of_nat index + 1)) ".xml").

Definition sharedStrings_entry : string := "xl/sharedStrings.xml".

Section Codec.
(** The collaborators: fast-xml-parser ([xml.parse], [builder.build], at
    the two types they are used at), the text codec and fflate.  [xml.parse]
    and [decoder.decode] run inside the [try] of [load]: [None] stands for an
    exception of the call.  [zipSync] stamps the entries with the current
    time: what it returns depends on the entries and on what the system
    clock reads during the call. *)
Variable clock : Type.
Variable parse_sheet : string -> option Worksheet.
Variable parse_strings : string -> option StringTable.
Variable build_sheet : Worksheet -> string.
Variable build_strings : StringTable -> string.
Variable decode : bytes -> option string.
Variable encode : string -> bytes.
Variable zipSync : clock -> entries -> bytes.

(** [Object.keys(this._file).filter((key) =>
    key.startsWith("xl/worksheets/sheet"))]. *)
Definition sheet_keys (file : entries) : list string :=
  filter (fun key => String.prefix "xl/worksheets/sheet" key = true)
         (fst <$> file).

(** [xml.parse(decoder.decode(sheetFile))] and the same for the shared
    strings. *)
Definition read_sheet (sheetFile : bytes) : option Worksheet :=
  decode sheetFile ≫= parse_sheet.

Definition read_strings (sharedStrings : bytes) : option StringTable :=
  decode sharedStrings ≫= parse_strings.

(** The loop of [load] over [sheet_keys], from position [i] on.  The Map is
    written in place: the first component is the Map as the loop leaves it,
    also when it throws. *)
Fixpoint load_sheets (file : entries) (excludeSheetIndexes : list nat)
    (keys : list string) (i : nat) (sheets : sheet_map)
  : sheet_map * option load_error :=
  match keys with
  | [] => (sheets, None)
  | key :: keys' =>
      if existsb (Nat.eqb i) excludeSheetIndexes
      then load_sheets file excludeSheetIndexes keys' (S i) sheets
      else match obj_get file key with
           | None => (sheets, Some (SheetNotFound i))
           | Some sheetFile =>
               match read_sheet sheetFile with
               | None => (sheets, Some (Unreadable key))
               | Some parsed =>
                   load_sheets file excludeSheetIndexes keys' (S i)
                     (Map_set sheets i parsed)
               end
           end
  end.

(** [load] on a new object, once the archive is unzipped into [file]: the
    object it leaves when it resolves, or what it rejects with. *)
Definition load (path : string) (file : entries)
    (excludeSheetIndexes : list nat) : TinyExcel + load_error :=
  match obj_get file sharedStrings_entry with
  | None => inr SharedStringsNotFound
  | Some sharedStrings =>
      match load_sheets file excludeSheetIndexes (sheet_keys file) 0 [] with
      | (_, Some e) => inr e
      | (sheets, None) =>
          match read_strings sharedStrings with
          | None => inr (Unreadable sharedStrings_entry)
          | Some stringTable => inl (mkTinyExcel path file sheets stringTable)
          end
      end
  end.

(** The loop of [saveBuffer] over [this._sheets]. *)
Definition save_sheets (file : entries) (sheets : sheet_map) : entries :=
  fold_left
    (fun f '(index, sheet) =>
       obj_set f (sheet_entry index) (encode (build_sheet sheet)))
    sheets file.

(** The entries [saveBuffer] hands to [zipSync]; they stay in
    [this._file]. *)
Definition saved_entries (wb : TinyExcel) : entries :=
  obj_set (save_sheets (_file wb) (_sheets wb)) sharedStrings_entry
    (encode (build_strings (_sharedStrings wb))).

(** [saveBuffer()], called while the clock reads [now]. *)
Definition saveBuffer (now : clock) (wb : TinyExcel) : TinyExcel * bytes :=
  let file := saved_entries wb in
  (mkTinyExcel (_path wb) file (_sheets wb) (_sharedStrings wb),
   zipSync now file).
End Codec.

Arguments saveBuffer {clock}.

(** ** Worked inputs *)

Definition run (sh : Sheet) (cell_name : string) (value : scalar) (type : kind)
  : Sheet := fst (setCell sh cell_name value type).

Definition write (cell_name value : string) (sh : Sheet) : Sheet :=
  run sh cell_name (SStr value) KString.

(** Trees as the parser leaves them: attribute values are text, the [v] of
    a shared-string cell is a number. *)
Definition parsed_cell (r : string) (v : Z) : Cell :=
  mkCell (Some r) (Some (SNum v)) (Some "s") None [].

Definition parsed_row (r : string) (c : children Cell) : Row :=
  mkRow (Some (SStr r)) c [].

Definition parsed_strings : children Si :=
  Many [mkSi (Some (SStr "x")) []; mkSi (Some (SStr "foo")) []].

(** Two rows of two cells over two shared strings: [A1] and [A2] hold "foo"
    through offset 1, [B1] and [B2] hold "x" through offset 0. *)
Definition parsed_sheet : Sheet :=
  mkSheet 0
    (mkWorksheet
       (Many [parsed_row "1" (Many [parsed_cell "A1" 1; parsed_cell "B1" 0]);
              parsed_row "2" (Many [parsed_cell "A2" 1; parsed_cell "B2" 0])])
       [])
    (mkStringTable parsed_strings []).

(** The same after [B1] is rewritten to "foo": offset 0 holds "foo" too, and
    [A1] and [A2] still share offset 1. *)
Definition two_foo_sheet : Sheet := write "B1" "foo" parsed_sheet.

(** A workbook with one shared string: [sst.si] is the bare object. *)
Definition one_string_sheet : Sheet :=
  mkSheet 0
    (mkWorksheet
       (Many [parsed_row "1" (Many [parsed_cell "A1" 0; parsed_cell "B1" 0]);
              parsed_row "2" (Many [parsed_cell "A2" 0; parsed_cell "B2" 0])])
       [])
    (mkStringTable (Single (mkSi (Some (SStr "only")) [])) []).

(** A sheet with one row: [sheetData.row] is the bare object. *)
Definition one_row_sheet : Sheet :=
  mkSheet 0
    (mkWorksheet
       (Single (parsed_row "1" (Many [parsed_cell "A1" 1; parsed_cell "B1" 0])))
       [])
    (mkStringTable parsed_strings []).

(** Rows of one cell each: [row.c] is the bare object. *)
Definition one_cell_rows_sheet : Sheet :=
  mkSheet 0
    (mkWorksheet
       (Many [parsed_row "1" (Single (parsed_cell "A1" 1));
              parsed_row "2" (Single (parsed_cell "A2" 0))])
       [])
    (mkStringTable parsed_strings []).

(** A stand-in codec, to run [load] and [saveBuffer] on a small archive. *)
Definition text_bytes (s : string) : bytes := list_byte_of_string s.
Definition sample_build_sheet (ws : Worksheet) : string :=
  String.append "<worksheet rows="
    (String.append (toString (Z.of_nat (length (match sheetData_row ws with
                                                 | Many l => l
                                                 | Single r => [r]
                                                 | Absent => []
                                                 end)))) "/>").
Definition sample_build_strings (st : StringTable) : string := "<sst/>".
Definition sample_zip (now : Z) (file : entries) : bytes :=
  text_bytes (toString now) ++ concat (snd <$> file).

Definition sample_book : TinyExcel :=
  mkTinyExcel "book.xlsx"
    [("xl/styles.xml", text_bytes "<styleSheet/>");
     ("xl/worksheets/sheet1.xml", text_bytes "<worksheet/>");
     ("xl/sharedStrings.xml", text_bytes "<sst/>")]
    [(0, _data parsed_sheet)]
    (_stringTable parsed_sheet).

(** ** Callers of the Sheet and the rest of class TinyExcel *)

(** A caller making one [setCell] after the other; the first exception ends
    the run. *)
Fixpoint setCells (sh : Sheet) (ops : list (string * scalar * kind))
  : Sheet * result unit :=
  match ops with
  | [] => (sh, Ok ())
  | (cell_name, value, type) :: ops' =>
      match setCell sh cell_name value type with
      | (sh', Ok _) => setCells sh' ops'
      | (sh', Throw e) => (sh', Throw e)
      end
  end.

(** [s.endsWith(suffix)]: some tail of [s] is [suffix]. *)
Fixpoint ends_with (suffix s : string) : bool :=
  String.eqb s suffix ||
  match s with
  | EmptyString => false
  | String _ s' => ends_with suffix s'
  end.

(** What [load] rejects with. *)
Inductive rejection : Type :=
  | DoesNotExist (path : string)      (* `File ${path} does not exist.` *)
  | NotAnExcelFile (path : string)    (* `File ${path} is not an Excel file.` *)
  | ArchiveError                      (* thrown by unzipSync *)
  | LoadFailed (e : load_error).

Section Loading.
(** [disk] is what [Bun.file(path)] finds: nothing, or the bytes of the
    file.  [unzipSync] gives no entries when it throws. *)
Variable parse_sheet : string -> option Worksheet.
Variable parse_strings : string -> option StringTable.
Variable decode : bytes -> option string.
Variable unzipSync : bytes -> option entries.

(** [load(options)] on a new object. *)
Definition load_path (path : string) (disk : option bytes)
    (excludeSheetIndexes : list nat) : TinyExcel + rejection :=
  match disk with
  | None => inr (DoesNotExist path)
  | Some content =>
      if negb (ends_with ".xlsx" path) then inr (NotAnExcelFile path)
      else match unzipSync content with
           | None => inr ArchiveError
           | Some file =>
               match load parse_sheet parse_strings decode path file
                       excludeSheetIndexes with
               | inl wb => inl wb
               | inr e => inr (LoadFailed e)
               end
           end
  end.

(** [load(options)] on an object that is already loaded: [this._file] is
    replaced as soon as the archive is read, [this._sheets] is the same Map
    as before and is only added to, [this._sharedStrings] is replaced at the
    end.  The first component is the object as the call leaves it, also when
    it rejects. *)
Definition reload (wb : TinyExcel) (disk : option bytes)
    (excludeSheetIndexes : list nat) : TinyExcel * option rejection :=
  match disk with
  | None => (wb, Some (DoesNotExist (_path wb)))
  | Some content =>
      if negb (ends_with ".xlsx" (_path wb))
      then (wb, Some (NotAnExcelFile (_path wb)))
      else match unzipSync content with
           | None => (wb, Some ArchiveError)
           | Some file =>
               let wb1 :=
                 mkTinyExcel (_path wb) file (_sheets wb) (_sharedStrings wb) in
               match obj_get file sharedStrings_entry with
               | None => (wb1, Some (LoadFailed SharedStringsNotFound))
               | Some sharedStrings =>
                   let '(sheets, thrown) :=
                     load_sheets parse_sheet decode file
                       excludeSheetIndexes (sheet_keys file) 0 (_sheets wb) in
                   let wb2 :=
                     mkTinyExcel (_path wb) file sheets (_sharedStrings wb) in
                   match thrown with
                   | Some e => (wb2, Some (LoadFailed e))
                   | None =>
                       match read_strings parse_strings decode sharedStrings with
                       | None =>
                           (wb2, Some (LoadFailed (Unreadable sharedStrings_entry)))
                       | Some stringTable =>
                           (mkTinyExcel (_path wb) file sheets stringTable, None)
                       end
                   end
               end
           end
  end.
End Loading.

(** [getSheet(index)]: nothing when [this._sheets] has no such index (the
    source throws), else a Sheet on the stored tree and the one table. *)
Definition getSheet (wb : TinyExcel) (index : nat) : option Sheet :=
  match Map_get (_sheets wb) index with
  | Some ws => Some (mkSheet index ws (_sharedStrings wb))
  | None => None
  end.

(** A Sheet holds the workbook's own tree and table objects and mutates them
    in place: what a call leaves in the Sheet is what the workbook holds. *)
Definition putSheet (wb : TinyExcel) (sh : Sheet) : TinyExcel :=
  mkTinyExcel (_path wb) (_file wb)
    (Map_set (_sheets wb) (_index sh) (_data sh)) (_stringTable sh).

(** [getSheet(index).setCell(...)] and [getSheet(index).getCell(...)]. *)
Definition sheet_setCell (wb : TinyExcel) (index : nat) (cell_name : string)
    (value : scalar) (type : kind) : option (TinyExcel * result unit) :=
  match getSheet wb index with
  | None => None
  | Some sh =>
      let '(sh', r) := setCell sh cell_name value type in
      Some (putSheet wb sh', r)
  end.

Definition sheet_getCell (wb : TinyExcel) (index : nat) (cell_name : string)
  : option (result (option scalar)) :=
  match getSheet wb index with
  | None => None
  | Some sh => Some (getCell sh cell_name)
  end.

(** A codec that loses nothing and rejects the empty document, and a small
    archive to run on: two worksheets, the shared strings and a style
    sheet. *)
Definition raw_parse_sheet (s : string) : option Worksheet :=
  if String.eqb s EmptyString then None
  else Some (mkWorksheet Absent [("raw", s)]).
Definition raw_build_sheet (ws : Worksheet) : string :=
  match ws_rest ws with
  | (_, s) :: _ => s
  | [] => EmptyString
  end.
Definition raw_parse_strings (s : string) : option StringTable :=
  if String.eqb s EmptyString then None
  else Some (mkStringTable Absent [("raw", s)]).
Definition raw_build_strings (st : StringTable) : string :=
  match sst_rest st with
  | (_, s) :: _ => s
  | [] => EmptyString
  end.
Definition raw_decode (b : bytes) : option string :=
  Some (string_of_list_byte b).

Definition sample_archive : entries :=
  [("xl/styles.xml", text_bytes "<styleSheet/>");
   ("xl/worksheets/sheet1.xml", text_bytes "<worksheet>1</worksheet>");
   ("xl/worksheets/sheet2.xml", text_bytes "<worksheet>2</worksheet>");
   ("xl/sharedStrings.xml", text_bytes "<sst/>")].

(** The same worksheets listed in the other order, as an archive may list
    them: the order of the entries of a zip file is free. *)
Definition swapped_archive : entries :=
  [("xl/worksheets/sheet2.xml", text_bytes "<worksheet>2</worksheet>");
   ("xl/worksheets/sheet1.xml", text_bytes "<worksheet>1</worksheet>");
   ("xl/sharedStrings.xml", text_bytes "<sst/>")].

(** An archive whose second worksheet is an empty document. *)
Definition broken_archive : entries :=
  [("xl/worksheets/sheet1.xml", text_bytes "<worksheet>1</worksheet>");
   ("xl/worksheets/sheet2.xml", []);
   ("xl/sharedStrings.xml", text_bytes "<sst/>")].

(** Two sheets over one table: both trees are those of [parsed_sheet]. *)
Definition two_sheet_book : TinyExcel :=
  mkTinyExcel "book.xlsx" sample_archive
    [(0, _data parsed_sheet); (1, _data parsed_sheet)]
    (_stringTable parsed_sheet).

(** ** The cell-address grammar, as the documentation words it *)

Fixpoint string_forall (p : ascii -> bool) (s : string) : Prop :=
  match s with
  | EmptyString => True
  | String a s' => p a = true /\ string_forall p s'
  end.

(** One or more uppercase letters followed by one or more decimal digits:
    the language of [/^[A-Z]+\d+$/]. *)
Definition letters_then_digits (s : string) : Prop :=
  exists cols row : string,
    s = String.append cols row /\
    cols <> EmptyString /\ string_forall is_upper cols /\
    row <> EmptyString /\ string_forall is_digit row.

(** The specification's grammar: the row component is moreover a positive
    (1-based) integer. *)
Definition cell_address (s : string) : Prop :=
  exists cols row : string,
    s = String.append cols row /\
    cols <> EmptyString /\ string_forall is_upper cols /\
    row <> EmptyString /\ string_forall is_digit row /\
    (0 < parseInt row)%Z.

(** * Facts about the matcher *)

Lemma append_nil (t : string) : String.append EmptyString t = t.
Proof. reflexivity. Qed.

Lemma append_cons (a : ascii) (s t : string) :
  String.append (String a s) t = String a (String.append s t).
Proof. reflexivity. Qed.

Section Scanning.
Variable p : ascii -> bool.

Lemma take_skip (s : string) :
  String.append (take_while p s) (skip_while p s) = s.
Proof.
  induction s as [|a s IH]; simpl; [reflexivity|].
  destruct (p a); [now rewrite append_cons, IH | reflexivity].
Qed.

Lemma take_while_forall (s : string) : string_forall p (take_while p s).
Proof.
  induction s as [|a s IH]; simpl; [exact I|].
  destruct (p a) eqn:E; simpl; auto.
Qed.

Lemma skip_while_empty (s : string) :
  skip_while p s = EmptyString -> string_forall p s.
Proof.
  induction s as [|a s IH]; simpl; [auto|].
  destruct (p a) eqn:E; [auto | discriminate].
Qed.

Lemma forall_skip_empty (s : string) :
  string_forall p s -> skip_while p s = EmptyString.
Proof.
  induction s as [|a s IH]; simpl; [auto|].
  intros [-> H]. auto.
Qed.

(** Skipping stops exactly where the first character outside [p] is. *)
Lemma skip_while_app (s : string) (b : ascii) (t : string) :
  string_forall p s -> p b = false ->
  skip_while p (String.append s (String b t)) = String b t.
Proof.
  induction s as [|a s IH]; intros Hs Hb.
  - rewrite append_nil. simpl. now rewrite Hb.
  - destruct Hs as [Ha Hs]. rewrite append_cons. simpl. rewrite Ha. auto.
Qed.

Lemma take_while_app (s : string) (b : ascii) (t : string) :
  string_forall p s -> p b = false ->
  take_while p (String.append s (String b t)) = s.
Proof.
  induction s as [|a s IH]; intros Hs Hb.
  - rewrite append_nil. simpl. now rewrite Hb.
  - destruct Hs as [Ha Hs]. rewrite append_cons. simpl. rewrite Ha.
    now rewrite IH.
Qed.
End Scanning.

Lemma digit_not_upper (a : ascii) : is_digit a = true -> is_upper a = false.
Proof.
  unfold is_digit, is_upper. intros H.
  apply andb_true_iff in H as [_ H]. apply Nat.leb_le in H.
  apply andb_false_iff. left. apply Nat.leb_gt. lia.
Qed.

(** The matcher decides the language letters-then-digits. *)
Lemma cell_name_matches_iff (s : string) :
  cell_name_matches s = true <-> letters_then_digits s.
Proof.
  split.
  - destruct s as [|a s1]; simpl; [discriminate|].
    intros H. apply andb_true_iff in H as [Ha H].
    destruct (skip_while is_upper s1) as [|d s2] eqn:Hskip; [discriminate|].
    apply andb_true_iff in H as [Hd H].
    destruct (skip_while is_digit s2) eqn:Hrest; [|discriminate].
    exists (String a (take_while is_upper s1)), (String d s2).
    repeat split; try discriminate; auto.
    + rewrite append_cons. f_equal. rewrite <- Hskip. symmetry. apply take_skip.
    + apply take_while_forall.
    + now apply skip_while_empty.
  - intros (cols & row & -> & Hc & Hup & Hr & Hdig).
    destruct cols as [|a cols]; [congruence|].
    destruct row as [|d row]; [congruence|].
    destruct Hup as [Ha Hup]. destruct Hdig as [Hd Hdig].
    rewrite append_cons. simpl. rewrite Ha. simpl.
    rewrite skip_while_app by auto using digit_not_upper.
    rewrite Hd. simpl. now rewrite forall_skip_empty.
Qed.

Lemma cell_address_letters_then_digits (s : string) :
  cell_address s -> letters_then_digits s.
Proof.
  intros (cols & row & ? & ? & ? & ? & ? & _). exists cols, row. auto.
Qed.

(** The split of an address into columns and row is unique. *)
Lemma cell_address_row (cols row : string) :
  string_forall is_upper cols -> row <> EmptyString ->
  string_forall is_digit row ->
  skip_while is_upper (String.append cols row) = row.
Proof.
  intros Hup Hr Hdig. destruct row as [|d row]; [congruence|].
  destruct Hdig as [Hd _]. apply skip_while_app; auto using digit_not_upper.
Qed.

(** * Address validation *)

Lemma not_matches (s : string) :
  ~ letters_then_digits s -> cell_name_matches s = false.
Proof.
  intros H. destruct (cell_name_matches s) eqn:E; [|reflexivity].
  exfalso. apply H. now apply cell_name_matches_iff.
Qed.

(** C8, amended: [getCell] and [setCell] throw "Invalid cell name", leaving
    the sheet as it was, on every address that is not one or more uppercase
    letters followed by one or more decimal digits. *)
Theorem invalid_address_rejected (sh : Sheet) (a : string) (v : scalar)
    (k : kind) :
  ~ letters_then_digits a ->
  getCell sh a = Throw InvalidCellName /\
  setCell sh a v k = (sh, Throw InvalidCellName).
Proof.
  intros H. apply not_matches in H.
  unfold getCell, setCell. rewrite H. simpl. split; reflexivity.
Qed.

Lemma not_letters_then_digits_by_matcher (s : string) :
  cell_name_matches s = false -> ~ letters_then_digits s.
Proof.
  intros E H. apply cell_name_matches_iff in H. congruence.
Qed.

Lemma invalid_address_rejected_1A :
  ~ letters_then_digits "1A" /\
  getCell parsed_sheet "1A" = Throw InvalidCellName /\
  setCell parsed_sheet "1A" (SStr "x") KString =
    (parsed_sheet, Throw InvalidCellName).
Proof.
  split.
  - apply not_letters_then_digits_by_matcher. reflexivity.
  - apply (invalid_address_rejected parsed_sheet "1A" (SStr "x") KString).
    apply not_letters_then_digits_by_matcher. reflexivity.
Defined.

Example letters_only_rejected : ~ letters_then_digits "A".
Proof. apply not_letters_then_digits_by_matcher. reflexivity. Qed.

Example empty_address_rejected : ~ letters_then_digits EmptyString.
Proof. apply not_letters_then_digits_by_matcher. reflexivity. Qed.

(** C8 as stated fails: ["A0"] is not a cell address (its row is not
    positive), yet neither operation rejects it. *)
Lemma row_zero_accepted :
  ~ cell_address "A0" /\
  getCell parsed_sheet "A0" = Ok None /\
  snd (setCell parsed_sheet "A0" (SStr "x") KString) = Ok ().
Proof.
  split; [|split; reflexivity].
  intros (cols & row & Heq & _ & Hup & Hr & Hdig & Hpos).
  pose proof (cell_address_row cols row Hup Hr Hdig) as Hrow.
  rewrite <- Heq in Hrow. simpl in Hrow. subst row.
  vm_compute in Hpos. discriminate.
Qed.

(** * The shared-string step *)

Lemma alter_text_fmap (si : list Si) (k : nat) (value : string) :
  si_t <$> alter (fun e => mkSi (Some (SStr value)) (si_rest e)) k si =
  alter (fun _ => Some (SStr value)) k (si_t <$> si).
Proof.
  revert k. induction si as [|e si IH]; intros [|k]; simpl; try reflexivity.
  f_equal. apply IH.
Qed.

Lemma alter_const_insert {A} (l : list A) (k : nat) (x : A) :
  alter (fun _ => x) k l = <[k := x]> l.
Proof.
  revert k. induction l as [|y l IH]; intros [|k]; simpl; try reflexivity.
  f_equal. apply IH.
Qed.

Lemma getSharedString_hit (si : list Si) (rest : members) (old_value : scalar)
    (value : string) (k : nat) (t : option scalar) :
  list_find (fun t => t = Some old_value) (si_t <$> si) = Some (k, t) ->
  _getSharedString (mkStringTable (Many si) rest) old_value value =
    (mkStringTable
       (Many (alter (fun e => mkSi (Some (SStr value)) (si_rest e)) k si)) rest,
     Ok k).
Proof. intros H. unfold _getSharedString. simpl. now rewrite H. Qed.

Lemma getSharedString_miss (si : list Si) (rest : members) (old_value : scalar)
    (value : string) :
  list_find (fun t => t = Some old_value) (si_t <$> si) = None ->
  _getSharedString (mkStringTable (Many si) rest) old_value value =
    (mkStringTable (Many (si ++ [mkSi (Some (SStr value)) []])) rest,
     Ok (length si)).
Proof.
  intros H. unfold _getSharedString. simpl. rewrite H. f_equal. f_equal.
  rewrite length_app, length_fmap. simpl. lia.
Qed.

(** Whichever way it goes, the returned offset holds [value] afterwards. *)
Lemma getSharedString_text (si : list Si) (rest : members) (old_value : scalar)
    (value : string) :
  exists (k : nat) (si' : list Si),
    _getSharedString (mkStringTable (Many si) rest) old_value value =
      (mkStringTable (Many si') rest, Ok k) /\
    (si_t <$> si') !! k = Some (Some (SStr value)).
Proof.
  destruct (list_find (fun t => t = Some old_value) (si_t <$> si))
    as [[k t]|] eqn:Hfind.
  - eexists k, _. split; [eapply getSharedString_hit; eauto|].
    apply list_find_Some in Hfind as (Hk & _ & _).
    rewrite alter_text_fmap, alter_const_insert.
    apply list_lookup_insert_eq. now apply lookup_lt_Some in Hk.
  - eexists (length si), _. split; [now apply getSharedString_miss|].
    rewrite fmap_app. simpl.
    rewrite lookup_app_r by (rewrite length_fmap; lia).
    rewrite length_fmap, Nat.sub_diag. reflexivity.
Qed.

Lemma first_occurrence (texts : list (option scalar)) (old_value : scalar) :
  (exists i, texts !! i = Some (Some old_value)) ->
  exists k,
    list_find (fun t => t = Some old_value) texts = Some (k, Some old_value) /\
    texts !! k = Some (Some old_value) /\
    (forall j, j < k -> texts !! j <> Some (Some old_value)).
Proof.
  intros [i Hi].
  destruct (list_find (fun t => t = Some old_value) texts) as [[k t]|] eqn:Hfind.
  - apply list_find_Some in Hfind as (Hk & -> & Hfirst).
    exists k. repeat split; auto.
    intros j Hj Habs. exact (Hfirst j _ Habs Hj eq_refl).
  - exfalso. rewrite list_find_None, Forall_forall in Hfind.
    apply (Hfind (Some old_value)); [|reflexivity].
    apply list_elem_of_lookup. eauto.
Qed.

Lemma no_occurrence (texts : list (option scalar)) (old_value : scalar) :
  (forall i, texts !! i <> Some (Some old_value)) ->
  list_find (fun t => t = Some old_value) texts = None.
Proof.
  intros H. apply list_find_None, Forall_forall. intros t Ht ->.
  apply list_elem_of_lookup in Ht as [i Hi]. now apply (H i).
Qed.

(** C6: [_getSharedString(old_value, value)] on a table that is an array.
    When some entry's text is [old_value], the first such entry is
    overwritten in place and its offset returned, the table keeps its length
    and every other entry; otherwise an entry with text [value] is appended
    and the former length returned. *)
Theorem getSharedString_upsert (si : list Si) (rest : members)
    (old_value : scalar) (value : string) :
  let st := mkStringTable (Many si) rest in
  let texts := si_t <$> si in
  ((exists i, texts !! i = Some (Some old_value)) ->
   exists (k : nat) (si' : list Si),
     _getSharedString st old_value value =
       (mkStringTable (Many si') rest, Ok k) /\
     texts !! k = Some (Some old_value) /\
     (forall j, j < k -> texts !! j <> Some (Some old_value)) /\
     si_t <$> si' = <[k := Some (SStr value)]> texts /\
     length si' = length si /\
     (forall j, j <> k -> si' !! j = si !! j)) /\
  ((forall i, texts !! i <> Some (Some old_value)) ->
   _getSharedString st old_value value =
     (mkStringTable (Many (si ++ [mkSi (Some (SStr value)) []])) rest,
      Ok (length si))).
Proof.
  intros st texts. split.
  - intros Hex. apply first_occurrence in Hex as (k & Hfind & Hk & Hfirst).
    eexists k, _. split; [eapply getSharedString_hit; eauto|].
    split; [exact Hk|]. split; [exact Hfirst|].
    split; [now rewrite alter_text_fmap, alter_const_insert|].
    split; [apply length_alter|].
    intros j Hj. now apply list_lookup_alter_ne.
  - intros Hnone. now apply getSharedString_miss, no_occurrence.
Qed.

Lemma getSharedString_upsert_example :
  (exists (k : nat) (si' : list Si),
     _getSharedString
       (mkStringTable
          (Many [mkSi (Some (SStr "x")) []; mkSi (Some (SStr "foo")) [];
                 mkSi (Some (SStr "foo")) []]) [])
       (SStr "foo") "bar" =
       (mkStringTable (Many si') [], Ok k) /\
     [Some (SStr "x"); Some (SStr "foo"); Some (SStr "foo")] !! k =
       Some (Some (SStr "foo")) /\
     (forall j, j < k ->
        [Some (SStr "x"); Some (SStr "foo"); Some (SStr "foo")] !! j <>
        Some (Some (SStr "foo"))) /\
     si_t <$> si' =
       <[k := Some (SStr "bar")]>
         [Some (SStr "x"); Some (SStr "foo"); Some (SStr "foo")] /\
     length si' = 3 /\
     (forall j, j <> k ->
        si' !! j =
        [mkSi (Some (SStr "x")) []; mkSi (Some (SStr "foo")) [];
         mkSi (Some (SStr "foo")) []] !! j)) /\
  _getSharedString
    (mkStringTable
       (Many [mkSi (Some (SStr "x")) []; mkSi (Some (SStr "foo")) [];
              mkSi (Some (SStr "foo")) []]) [])
    (SStr "zzz") "bar" =
  (mkStringTable
     (Many [mkSi (Some (SStr "x")) []; mkSi (Some (SStr "foo")) [];
            mkSi (Some (SStr "foo")) []; mkSi (Some (SStr "bar")) []]) [],
   Ok 3).
Proof.
  split.
  - apply (proj1 (getSharedString_upsert
                    [mkSi (Some (SStr "x")) []; mkSi (Some (SStr "foo")) [];
                     mkSi (Some (SStr "foo")) []] [] (SStr "foo") "bar")).
    exists 1. reflexivity.
  - apply (proj2 (getSharedString_upsert
                    [mkSi (Some (SStr "x")) []; mkSi (Some (SStr "foo")) [];
                     mkSi (Some (SStr "foo")) []] [] (SStr "zzz") "bar")).
    intros [|[|[|i]]]; cbv; congruence.
Defined.

(** [upsert(X, X)] with [X] in the table: the offset of its first
    occurrence, and the texts of the table are what they were. *)
Lemma getSharedString_same (si : list Si) (rest : members) (X : string) :
  (exists i, (si_t <$> si) !! i = Some (Some (SStr X))) ->
  exists (k : nat) (si' : list Si),
    _getSharedString (mkStringTable (Many si) rest) (SStr X) X =
      (mkStringTable (Many si') rest, Ok k) /\
    (si_t <$> si) !! k = Some (Some (SStr X)) /\
    (forall j, j < k -> (si_t <$> si) !! j <> Some (Some (SStr X))) /\
    length si' = length si /\
    si_t <$> si' = si_t <$> si.
Proof.
  intros Hex. apply first_occurrence in Hex as (k & Hfind & Hk & Hfirst).
  eexists k, _. split; [eapply getSharedString_hit; eauto|].
  repeat split; auto using length_alter.
  rewrite alter_text_fmap, alter_const_insert. now apply list_insert_id.
Qed.

(** * Scanning rows and cells *)

(** On an array of cells the scan is [Array.prototype.find]. *)
Lemma scan_cells_many (a : string) (cells : list Cell) :
  scan_cells a (Some <$> cells) = Ok (snd <$> list_find (named a) cells).
Proof.
  induction cells as [|x cells IH]; [reflexivity|].
  rewrite fmap_cons. cbn [scan_cells list_find].
  destruct (decide (c_r x = Some a)); [reflexivity|].
  rewrite IH. now destruct (list_find (named a) cells) as [[j y]|].
Qed.

Lemma find_row_None (a : string) (rows : list Row) :
  find_row a rows = Ok None -> Forall (clean a) rows.
Proof.
  induction rows as [|row rows IH]; simpl; intros H; [constructor|].
  destruct (scan_cells a (cells_of row)) as [[c|]|] eqn:E; try discriminate.
  destruct (find_row a rows) as [[[i r]|]|]; try discriminate.
  constructor; auto.
Qed.

Lemma find_row_Some (a : string) (rows : list Row) (i : nat) (row : Row) :
  find_row a rows = Ok (Some (i, row)) ->
  exists (pre post : list Row) (c : Cell),
    rows = pre ++ row :: post /\ length pre = i /\
    Forall (clean a) pre /\ scan_cells a (cells_of row) = Ok (Some c).
Proof.
  revert i. induction rows as [|r rows IH]; simpl; intros i H; [discriminate|].
  destruct (scan_cells a (cells_of r)) as [[c|]|] eqn:E; try discriminate.
  - injection H as <- <-. exists [], rows, c. repeat split; auto.
  - destruct (find_row a rows) as [[[j r']|]|]; try discriminate.
    injection H as <- <-.
    destruct (IH j eq_refl) as (pre & post & c & -> & <- & Hpre & Hc).
    exists (r :: pre), post, c. repeat split; auto.
Qed.

Lemma find_row_app (a : string) (pre : list Row) (row : Row) (post : list Row)
    (c : Cell) :
  Forall (clean a) pre -> scan_cells a (cells_of row) = Ok (Some c) ->
  find_row a (pre ++ row :: post) = Ok (Some (length pre, row)).
Proof.
  intros Hpre Hc. induction Hpre as [|r pre Hr _ IH]; simpl.
  - now rewrite Hc.
  - unfold clean in Hr. now rewrite Hr, IH.
Qed.

Lemma scan_rows_app (a : string) (pre rest : list Row) :
  Forall (clean a) pre -> scan_rows a (pre ++ rest) = scan_rows a rest.
Proof.
  intros Hpre. induction Hpre as [|r pre Hr _ IH]; simpl; [reflexivity|].
  unfold clean in Hr. now rewrite Hr.
Qed.

Lemma scan_rows_clean (a : string) (rows : list Row) :
  Forall (clean a) rows -> scan_rows a rows = Ok None.
Proof.
  intros H. rewrite <- (app_nil_r rows). now rewrite scan_rows_app.
Qed.

Lemma located_scan (a : string) (sh : Sheet) pre row post cells ci c :
  located a sh pre row post cells ci c ->
  scan_cells a (cells_of row) = Ok (Some c).
Proof.
  intros (_ & _ & Hcells & Hfind).
  unfold cells_of. rewrite Hcells, scan_cells_many, Hfind. reflexivity.
Qed.

(** What [getCell] returns when the first cell of that name is known. *)
Lemma getCell_located (a : string) (sh : Sheet) pre row post cells ci c texts :
  cell_name_matches a = true ->
  located a sh pre row post cells ci c ->
  si_texts (_stringTable sh) = Ok texts ->
  getCell sh a = Ok (or_null (array_get texts (c_v c))).
Proof.
  intros Hm Hloc Htexts. pose proof (located_scan _ _ _ _ _ _ _ _ Hloc) as Hc.
  destruct Hloc as (Hrows & Hpre & _ & _).
  unfold getCell, sheetData. rewrite Hm, Htexts, Hrows. simpl.
  rewrite scan_rows_app by assumption. simpl. now rewrite Hc.
Qed.

(** An array operation on the target cell that keeps its name keeps it the
    first cell of that name. *)
Lemma list_find_alter {A} (P : A -> Prop) `{forall x, Decision (P x)}
    (f : A -> A) (l : list A) (i : nat) (x : A) :
  list_find P l = Some (i, x) -> P (f x) ->
  list_find P (alter f i l) = Some (i, f x).
Proof.
  intros Hfind Hfx. apply list_find_Some in Hfind as (Hi & _ & Hfirst).
  apply list_find_Some. split; [|split; [exact Hfx|]].
  - rewrite list_lookup_alter. rewrite decide_True by reflexivity.
    now rewrite Hi.
  - intros j y Hj Hlt. rewrite list_lookup_alter_ne in Hj by lia. eauto.
Qed.

Lemma located_update (a : string) (sh : Sheet) pre row post cells ci c
    (f : Cell -> Cell) :
  located a sh pre row post cells ci c ->
  c_r (f c) = c_r c ->
  located a (update_cell sh (length pre) ci f) pre (alter_cell f ci row) post
    (alter f ci cells) ci (f c).
Proof.
  intros (Hrows & Hpre & Hcells & Hfind) Hname.
  assert (Hc : c_r c = Some a) by (apply list_find_Some in Hfind; tauto).
  unfold located, update_cell, alter_cell. rewrite Hrows, Hcells. simpl.
  replace (length pre) with (length pre + 0) by lia.
  rewrite alter_app_r. simpl. unfold alter_cell. rewrite Hcells.
  repeat split; auto.
  apply list_find_alter; [assumption | congruence].
Qed.

Lemma located_with_table (a : string) (sh : Sheet) pre row post cells ci c st :
  located a sh pre row post cells ci c ->
  located a (with_table sh st) pre row post cells ci c.
Proof. intros H. exact H. Qed.

(** * The two ways [setCell] reaches its target cell *)

Lemma scan_many_find (a : string) (cells : list Cell) (c : Cell) :
  scan_cells a (Some <$> cells) = Ok (Some c) ->
  exists ci, list_find (named a) cells = Some (ci, c).
Proof.
  rewrite scan_cells_many.
  destruct (list_find (named a) cells) as [[ci x]|]; simpl; intros H;
    [|discriminate].
  injection H as ->. eauto.
Qed.

(** The cell exists: nothing is created. *)
Lemma setCell_located (a : string) (sh : Sheet) pre row post cells ci c
    (v : scalar) (k : kind) :
  cell_name_matches a = true ->
  located a sh pre row post cells ci c ->
  setCell sh a v k = assign sh (length pre) ci a v k.
Proof.
  intros Hm Hloc. pose proof (located_scan _ _ _ _ _ _ _ _ Hloc) as Hc.
  destruct Hloc as (Hrows & Hpre & Hcells & Hfind).
  unfold setCell, sheetData. rewrite Hm, Hrows. simpl.
  rewrite (find_row_app a pre row post c Hpre Hc), Hcells, Hfind.
  reflexivity.
Qed.

(** No row holds the cell: a row and a cell are pushed. *)
Lemma setCell_created (a : string) (sh : Sheet) (rows0 : list Row)
    (v : scalar) (k : kind) :
  cell_name_matches a = true ->
  sheetData_row (_data sh) = Many rows0 ->
  find_row a rows0 = Ok None ->
  let sh2 := with_rows sh (rows0 ++ [with_cells (new_row a) [new_cell a]]) in
  setCell sh a v k = assign sh2 (length rows0) 0 a v k /\
  located a sh2 rows0 (with_cells (new_row a) [new_cell a]) [] [new_cell a] 0
    (new_cell a).
Proof.
  intros Hm Hrows Hfind sh2. split.
  - assert (Hins : <[length rows0 := with_cells (new_row a) [new_cell a]]>
                     (rows0 ++ [new_row a]) =
                   rows0 ++ [with_cells (new_row a) [new_cell a]]).
    { replace (length rows0) with (length rows0 + 0) by lia.
      now rewrite insert_app_r. }
    unfold setCell, sheetData. rewrite Hm, Hrows. simpl. rewrite Hfind.
    simpl. rewrite Hins. reflexivity.
  - repeat split; simpl; auto using find_row_None.
    rewrite decide_True by reflexivity. reflexivity.
Qed.

(** A call that completes went one of the two ways. *)
Lemma setCell_Ok (sh : Sheet) (a : string) (v : scalar) (k : kind)
    (sh' : Sheet) :
  setCell sh a v k = (sh', Ok ()) ->
  cell_name_matches a = true /\
  exists sh2 pre row post cells ci c,
    located a sh2 pre row post cells ci c /\
    _stringTable sh2 = _stringTable sh /\
    assign sh2 (length pre) ci a v k = (sh', Ok ()).
Proof.
  intros H.
  destruct (cell_name_matches a) eqn:Hm;
    [|unfold setCell in H; rewrite Hm in H; discriminate].
  split; [reflexivity|].
  destruct (sheetData_row (_data sh)) as [|r|rows0] eqn:Hrows;
    try (unfold setCell, sheetData in H; rewrite Hm, Hrows in H; discriminate).
  destruct (find_row a rows0) as [[[i row]|]|e] eqn:Hfind.
  - destruct (find_row_Some _ _ _ _ Hfind)
      as (pre & post & c & -> & <- & Hpre & Hc).
    destruct (r_c row) as [|x|cells] eqn:Hcells;
      try (unfold setCell, sheetData in H;
           rewrite Hm, Hrows in H; simpl in H;
           rewrite Hfind, Hcells in H; discriminate).
    assert (Hci : exists ci, list_find (named a) cells = Some (ci, c)).
    { apply scan_many_find. unfold cells_of in Hc. now rewrite Hcells in Hc. }
    destruct Hci as [ci Hci].
    assert (Hloc : located a sh pre row post cells ci c) by (repeat split; auto).
    exists sh, pre, row, post, cells, ci, c. repeat split; auto.
    now rewrite <- (setCell_located a sh pre row post cells ci c v k Hm Hloc).
  - destruct (setCell_created a sh rows0 v k Hm Hrows Hfind) as [Hrun Hloc].
    eexists _, _, _, _, _, _, _. split; [exact Hloc|].
    split; [reflexivity|]. now rewrite <- Hrun.
  - unfold setCell, sheetData in H. rewrite Hm, Hrows in H. simpl in H.
    rewrite Hfind in H. discriminate.
Qed.

(** On a normalized sheet the target is always reached. *)
Lemma find_row_total (a : string) (rows : list Row) :
  forallb (fun row => is_many (r_c row)) rows = true ->
  exists found, find_row a rows = Ok found.
Proof.
  induction rows as [|row rows IH]; simpl; intros H; [eauto|].
  apply andb_true_iff in H as [Hrow Hrows].
  destruct (r_c row) as [|x|cells] eqn:Hcells; try discriminate.
  unfold cells_of. rewrite Hcells, scan_cells_many.
  destruct (list_find (named a) cells) as [[j c]|]; simpl; [eauto|].
  destruct (IH Hrows) as [[[i r]|] ->]; eauto.
Qed.

Lemma normalized_rows (sh : Sheet) (rows : list Row) :
  sheetData_row (_data sh) = Many rows ->
  normalized sh =
    forallb (fun row => is_many (r_c row)) rows &&
    is_many (sst_si (_stringTable sh)).
Proof. intros H. unfold normalized, rows_of. now rewrite H. Qed.

Lemma setCell_reaches (sh : Sheet) (a : string) (v : scalar) (k : kind) :
  normalized sh = true -> cell_name_matches a = true ->
  exists sh2 pre row post cells ci c,
    located a sh2 pre row post cells ci c /\
    _stringTable sh2 = _stringTable sh /\
    normalized sh2 = true /\
    setCell sh a v k = assign sh2 (length pre) ci a v k /\
    (sh2 = sh \/
     (cell_at sh a = Ok None /\ sheetData_row (_data sh) = Many pre /\
      post = [] /\ row = with_cells (new_row a) [new_cell a])).
Proof.
  intros Hn Hm. pose proof Hn as Hn'. unfold normalized, rows_of in Hn'.
  apply andb_true_iff in Hn' as [Hn' Hsi].
  apply andb_true_iff in Hn' as [Hr Hc].
  destruct (sheetData_row (_data sh)) as [|r|rows0] eqn:Hrows; try discriminate.
  destruct (find_row_total a rows0 Hc) as [[[i row]|] Hfind].
  - destruct (find_row_Some _ _ _ _ Hfind)
      as (pre & post & c & -> & <- & Hpre & Hscan).
    rewrite forallb_app in Hc. apply andb_true_iff in Hc as [_ Hc].
    simpl in Hc. apply andb_true_iff in Hc as [Hrow _].
    destruct (r_c row) as [|x|cells] eqn:Hcells; try discriminate.
    unfold cells_of in Hscan. rewrite Hcells in Hscan.
    destruct (scan_many_find _ _ _ Hscan) as [ci Hci].
    assert (Hloc : located a sh pre row post cells ci c) by (repeat split; auto).
    exists sh, pre, row, post, cells, ci, c. repeat split; auto.
    now apply setCell_located with (c := c) (row := row) (post := post)
                                  (cells := cells).
  - destruct (setCell_created a sh rows0 v k Hm Hrows Hfind) as [Hrun Hloc].
    eexists _, _, _, _, _, _, _. split; [exact Hloc|].
    split; [reflexivity|]. split; [|split; [exact Hrun|]].
    + erewrite normalized_rows by reflexivity.
      rewrite forallb_app, Hc. simpl. exact Hsi.
    + right. repeat split; auto.
      unfold cell_at, sheetData. rewrite Hrows. simpl.
      apply scan_rows_clean. now apply find_row_None.
Qed.

(** * Writing a string and reading it back *)

Lemma update_cell_table (sh : Sheet) (ri ci : nat) (f : Cell -> Cell) :
  _stringTable (update_cell sh ri ci f) = _stringTable sh.
Proof.
  unfold update_cell. now destruct (sheetData_row (_data sh)).
Qed.

Lemma si_texts_many (st : StringTable) (texts : list (option scalar)) :
  si_texts st = Ok texts ->
  exists si, st = mkStringTable (Many si) (sst_rest st) /\ texts = si_t <$> si.
Proof.
  destruct st as [[|x|si] rest]; simpl; unfold si_texts; simpl; intros H;
    try discriminate.
  injection H as <-. eauto.
Qed.

Lemma getCell_Ok_texts (sh : Sheet) (a : string) (r : option scalar) :
  getCell sh a = Ok r -> exists texts, si_texts (_stringTable sh) = Ok texts.
Proof.
  unfold getCell. destruct (negb (cell_name_matches a)); [discriminate|].
  destruct (si_texts (_stringTable sh)) as [texts|]; [eauto | discriminate].
Qed.

Lemma array_get_offset (texts : list (option scalar)) (k : nat) (v : scalar) :
  texts !! k = Some (Some v) ->
  array_get texts (Some (SNum (Z.of_nat k))) = Some v.
Proof.
  intros H. unfold array_get.
  destruct (0 <=? Z.of_nat k)%Z eqn:E; [|apply Z.leb_gt in E; lia].
  now rewrite Nat2Z.id, H.
Qed.

Lemma truthy_nonempty (V : string) : V <> EmptyString -> truthy (SStr V) = true.
Proof.
  intros H. simpl. destruct (String.eqb V EmptyString) eqn:E; [|reflexivity].
  apply String.eqb_eq in E. congruence.
Qed.

(** The string branch of [assign], run on a table that is an array. *)
Lemma assign_string (a : string) (sh2 : Sheet) pre row post cells ci c
    (V : string) (texts : list (option scalar)) :
  cell_name_matches a = true ->
  located a sh2 pre row post cells ci c ->
  si_texts (_stringTable sh2) = Ok texts ->
  exists (k : nat) (si' : list Si) (sh' : Sheet),
    assign sh2 (length pre) ci a (SStr V) KString = (sh', Ok ()) /\
    located a sh' pre (alter_cell (put_string k) ci row) post
      (alter (put_string k) ci cells) ci (put_string k c) /\
    _stringTable sh' = mkStringTable (Many si') (sst_rest (_stringTable sh2)) /\
    (si_t <$> si') !! k = Some (Some (SStr V)).
Proof.
  intros Hm Hloc Htexts.
  destruct (si_texts_many _ _ Htexts) as (si & Hst & ->).
  unfold assign.
  rewrite (getCell_located a sh2 pre row post cells ci c _ Hm Hloc Htexts).
  rewrite Hst.
  destruct (getSharedString_text si (sst_rest (_stringTable sh2))
              (or_empty (or_null (array_get (si_t <$> si) (c_v c)))) V)
    as (k & si' & Hrun & Hk).
  rewrite Hrun. eexists k, si', _. split; [reflexivity|].
  split; [|split].
  - apply located_update; [|reflexivity]. apply located_with_table, Hloc.
  - now rewrite update_cell_table.
  - exact Hk.
Qed.

Lemma read_put_string (a : string) (sh' : Sheet) pre row post cells ci c
    (k : nat) (si' : list Si) (rest : members) (V : string) :
  cell_name_matches a = true ->
  located a sh' pre row post cells ci (put_string k c) ->
  _stringTable sh' = mkStringTable (Many si') rest ->
  (si_t <$> si') !! k = Some (Some (SStr V)) ->
  getCell sh' a = Ok (or_null (Some (SStr V))).
Proof.
  intros Hm Hloc Hst Hk.
  rewrite (getCell_located a sh' pre row post cells ci _ (si_t <$> si') Hm Hloc)
    by (unfold si_texts; now rewrite Hst).
  simpl c_v. now rewrite (array_get_offset _ _ _ Hk).
Qed.

(** Whatever the shape of the tree, a string write that completes reads
    back, the empty string apart. *)
Lemma setCell_completed_reads_back (sh sh' : Sheet) (a V : string) :
  setCell sh a (SStr V) KString = (sh', Ok ()) ->
  V <> EmptyString ->
  getCell sh' a = Ok (Some (SStr V)).
Proof.
  intros Hrun HV.
  destruct (setCell_Ok _ _ _ _ _ Hrun)
    as (Hm & sh2 & pre & row & post & cells & ci & c & Hloc & _ & Hassign).
  assert (Htexts : exists texts, si_texts (_stringTable sh2) = Ok texts).
  { unfold assign in Hassign.
    destruct (getCell sh2 a) as [cur|] eqn:Hget; [|discriminate].
    eapply getCell_Ok_texts; eauto. }
  destruct Htexts as [texts Htexts].
  destruct (assign_string a sh2 pre row post cells ci c V texts Hm Hloc Htexts)
    as (k & si' & sh3 & Hrun3 & Hloc3 & Hst3 & Hk).
  rewrite Hrun3 in Hassign. injection Hassign as <-.
  rewrite (read_put_string a sh3 _ _ _ _ _ _ _ _ _ V Hm Hloc3 Hst3 Hk).
  unfold or_null. now rewrite truthy_nonempty.
Qed.

Lemma normalized_texts (sh : Sheet) :
  normalized sh = true -> exists texts, si_texts (_stringTable sh) = Ok texts.
Proof.
  unfold normalized, si_texts. intros H. apply andb_true_iff in H as [_ H].
  destruct (sst_si (_stringTable sh)); try discriminate. eauto.
Qed.

(** C1, amended: on a sheet whose repeated children are arrays, for every
    address of letters then digits and every string [V] other than the empty
    one, [setCell(A, V)] completes and [getCell(A)] then returns [V]. *)
Theorem setCell_then_getCell (sh : Sheet) (a V : string) :
  letters_then_digits a ->
  normalized sh = true ->
  V <> EmptyString ->
  exists sh',
    setCell sh a (SStr V) KString = (sh', Ok ()) /\
    getCell sh' a = Ok (Some (SStr V)).
Proof.
  intros Ha Hn HV. apply cell_name_matches_iff in Ha.
  destruct (setCell_reaches sh a (SStr V) KString Hn Ha)
    as (sh2 & pre & row & post & cells & ci & c & Hloc & Hst & _ & Hrun & _).
  destruct (normalized_texts sh Hn) as [texts Htexts].
  rewrite <- Hst in Htexts.
  destruct (assign_string a sh2 pre row post cells ci c V texts Ha Hloc Htexts)
    as (k & si' & sh3 & Hrun3 & _).
  exists sh3. rewrite Hrun, Hrun3. split; [reflexivity|].
  apply setCell_completed_reads_back with (sh := sh); [|exact HV].
  now rewrite Hrun.
Qed.

Lemma setCell_then_getCell_A1 :
  exists sh',
    setCell parsed_sheet "A1" (SStr "Hello, World!") KString = (sh', Ok ()) /\
    getCell sh' "A1" = Ok (Some (SStr "Hello, World!")).
Proof.
  apply (setCell_then_getCell parsed_sheet "A1" "Hello, World!").
  - apply cell_name_matches_iff. reflexivity.
  - reflexivity.
  - discriminate.
Defined.

(** C1 as stated fails at the empty string: the write completes and the
    read returns null. *)
Lemma empty_string_reads_null :
  getCell parsed_sheet "A1" = Ok (Some (SStr "foo")) /\
  snd (setCell parsed_sheet "A1" (SStr EmptyString) KString) = Ok () /\
  getCell (write "A1" EmptyString parsed_sheet) "A1" = Ok None /\
  getCell (write "A1" EmptyString parsed_sheet) "A1" <> Ok (Some (SStr EmptyString)).
Proof. repeat split. discriminate. Qed.

(** * Two cells on one offset *)

Lemma located_scan_rows (a : string) (sh : Sheet) pre row post cells ci c :
  located a sh pre row post cells ci c ->
  scan_rows a (pre ++ row :: post) = Ok (Some c).
Proof.
  intros Hloc. pose proof (located_scan _ _ _ _ _ _ _ _ Hloc) as Hc.
  destruct Hloc as (_ & Hpre & _). rewrite scan_rows_app by assumption.
  simpl. now rewrite Hc.
Qed.

Lemma cell_at_located (sh : Sheet) (a : string) (c : Cell) :
  normalized sh = true -> cell_at sh a = Ok (Some c) ->
  exists pre row post cells ci, located a sh pre row post cells ci c.
Proof.
  unfold normalized, rows_of, cell_at, sheetData. intros Hn Hat.
  apply andb_true_iff in Hn as [Hn _]. apply andb_true_iff in Hn as [_ Hc].
  destruct (sheetData_row (_data sh)) as [|r|rows] eqn:Hrows; try discriminate.
  simpl in Hat.
  destruct (find_row_total a rows Hc) as [[[i row]|] Hfind].
  - destruct (find_row_Some _ _ _ _ Hfind)
      as (pre & post & c' & -> & <- & Hpre & Hscan).
    rewrite forallb_app in Hc. apply andb_true_iff in Hc as [_ Hc].
    simpl in Hc. apply andb_true_iff in Hc as [Hrow _].
    destruct (r_c row) as [|x|cells] eqn:Hcells; try discriminate.
    unfold cells_of in Hscan. rewrite Hcells in Hscan.
    destruct (scan_many_find _ _ _ Hscan) as [ci Hci].
    assert (Hloc : located a sh pre row post cells ci c')
      by (repeat split; auto).
    rewrite (located_scan_rows _ _ _ _ _ _ _ _ Hloc) in Hat.
    injection Hat as <-. eauto 6.
  - apply find_row_None in Hfind.
    rewrite (scan_rows_clean _ _ Hfind) in Hat. discriminate.
Qed.

Lemma list_find_cons {A} (P : A -> Prop) `{forall x, Decision (P x)}
    (x : A) (l : list A) :
  list_find P (x :: l) =
  if decide (P x) then Some (0, x) else prod_map S id <$> list_find P l.
Proof. reflexivity. Qed.

(** Changing a cell of another name does not change what the scan finds. *)
Lemma list_find_alter_other (a : string) (f : Cell -> Cell)
    (cells : list Cell) (ci : nat) :
  (forall x, c_r (f x) = c_r x) ->
  (forall x, cells !! ci = Some x -> c_r x <> Some a) ->
  list_find (named a) (alter f ci cells) = list_find (named a) cells.
Proof.
  intros Hf. revert ci.
  induction cells as [|y cells IH]; intros [|ci] Hci; try reflexivity.
  - change (alter f 0 (y :: cells)) with (f y :: cells).
    rewrite !list_find_cons, Hf.
    rewrite !decide_False by (apply Hci; reflexivity). reflexivity.
  - change (alter f (S ci) (y :: cells)) with (y :: alter f ci cells).
    rewrite !list_find_cons, IH; [reflexivity|]. intros x Hx. now apply Hci.
Qed.

Lemma scan_rows_middle (a : string) (pre : list Row) (row row' : Row)
    (post : list Row) :
  scan_cells a (cells_of row') = scan_cells a (cells_of row) ->
  scan_rows a (pre ++ row' :: post) = scan_rows a (pre ++ row :: post).
Proof.
  intros H. induction pre as [|r pre IH]; simpl.
  - now rewrite H.
  - now rewrite IH.
Qed.

Lemma scan_other_name (a1 a2 : string) (sh : Sheet) pre row post cells ci c
    (f : Cell -> Cell) :
  a1 <> a2 ->
  located a1 sh pre row post cells ci c ->
  (forall x, c_r (f x) = c_r x) ->
  scan_rows a2 (pre ++ alter_cell f ci row :: post) =
  scan_rows a2 (pre ++ row :: post).
Proof.
  intros Hne (_ & _ & Hcells & Hfind) Hf. apply scan_rows_middle.
  unfold alter_cell, cells_of. rewrite Hcells. simpl.
  rewrite !scan_cells_many. rewrite list_find_alter_other; auto.
  intros x Hx. apply list_find_Some in Hfind as (Hc & Hname & _).
  rewrite Hc in Hx. injection Hx as <-. congruence.
Qed.

Lemma getCell_scan (sh : Sheet) (a : string) (rows : list Row)
    (texts : list (option scalar)) (c : Cell) :
  cell_name_matches a = true ->
  si_texts (_stringTable sh) = Ok texts ->
  sheetData_row (_data sh) = Many rows ->
  scan_rows a rows = Ok (Some c) ->
  getCell sh a = Ok (or_null (array_get texts (c_v c))).
Proof.
  intros Hm Ht Hrows Hscan. unfold getCell, sheetData.
  rewrite Hm, Ht, Hrows. simpl. now rewrite Hscan.
Qed.

Lemma or_empty_or_null_string (s : string) :
  or_empty (or_null (Some (SStr s))) = SStr s.
Proof.
  unfold or_null, or_empty, truthy.
  destruct (String.eqb s EmptyString) eqn:E; simpl.
  - apply String.eqb_eq in E. now subst.
  - now rewrite E.
Qed.

(** C2, amended: on a sheet whose repeated children are arrays, when two
    cells resolve to the same text through the same offset, and that offset
    is the first entry of the table with that text, a write of a string that
    is not empty through one cell overwrites the entry in place and the
    other cell reads the new text. *)
Theorem write_through_shared_offset (sh : Sheet) (a1 a2 : string)
    (c1 c2 : Cell) (si : list Si) (k : nat) (old V : string) :
  letters_then_digits a1 -> letters_then_digits a2 -> a1 <> a2 ->
  normalized sh = true ->
  cell_at sh a1 = Ok (Some c1) -> cell_at sh a2 = Ok (Some c2) ->
  c_v c1 = Some (SNum (Z.of_nat k)) -> c_v c2 = Some (SNum (Z.of_nat k)) ->
  sst_si (_stringTable sh) = Many si ->
  (si_t <$> si) !! k = Some (Some (SStr old)) ->
  (forall j, j < k -> (si_t <$> si) !! j <> Some (Some (SStr old))) ->
  V <> EmptyString ->
  exists (sh' : Sheet) (si' : list Si),
    setCell sh a1 (SStr V) KString = (sh', Ok ()) /\
    sst_si (_stringTable sh') = Many si' /\
    length si' = length si /\
    si_t <$> si' = <[k := Some (SStr V)]> (si_t <$> si) /\
    getCell sh' a2 = Ok (Some (SStr V)).
Proof.
  intros Ha1 Ha2 Hne Hn Hat1 Hat2 Hv1 Hv2 Hsi Hk Hfirst HV.
  apply cell_name_matches_iff in Ha1, Ha2.
  destruct (cell_at_located sh a1 c1 Hn Hat1)
    as (pre & row & post & cells & ci & Hloc).
  assert (Htexts : si_texts (_stringTable sh) = Ok (si_t <$> si))
    by (unfold si_texts; now rewrite Hsi).
  assert (Hst : _stringTable sh = mkStringTable (Many si) (sst_rest (_stringTable sh)))
    by (destruct (_stringTable sh); simpl in *; now subst).
  assert (Hfind : list_find (fun t => t = Some (SStr old)) (si_t <$> si) =
                  Some (k, Some (SStr old))).
  { apply list_find_Some. repeat split; auto.
    intros j y Hj Hlt ->. now apply (Hfirst j). }
  set (si' := alter (fun e => mkSi (Some (SStr V)) (si_rest e)) k si).
  set (st' := mkStringTable (Many si') (sst_rest (_stringTable sh))).
  set (sh' := update_cell (with_table sh st') (length pre) ci (put_string k)).
  assert (Hrun : setCell sh a1 (SStr V) KString = (sh', Ok ())).
  { rewrite (setCell_located a1 sh pre row post cells ci c1 _ _ Ha1 Hloc).
    unfold assign.
    rewrite (getCell_located a1 sh pre row post cells ci c1 _ Ha1 Hloc Htexts).
    rewrite Hv1, (array_get_offset _ _ _ Hk), or_empty_or_null_string.
    rewrite Hst at 1.
    now rewrite (getSharedString_hit si _ (SStr old) V k _ Hfind). }
  assert (Htexts' : si_t <$> si' = <[k := Some (SStr V)]> (si_t <$> si))
    by (unfold si'; now rewrite alter_text_fmap, alter_const_insert).
  exists sh', si'. split; [exact Hrun|].
  split; [unfold sh'; now rewrite update_cell_table|].
  split; [apply length_alter|]. split; [exact Htexts'|].
  pose proof (located_update a1 (with_table sh st') pre row post cells ci c1
                (put_string k) (located_with_table _ _ _ _ _ _ _ _ st' Hloc)
                eq_refl) as Hloc'.
  fold sh' in Hloc'. destruct Hloc' as (Hrows' & _).
  pose proof Hloc as (Hrows & _).
  assert (Hscan : scan_rows a2 (pre ++ alter_cell (put_string k) ci row :: post)
                  = Ok (Some c2)).
  { rewrite (scan_other_name a1 a2 sh pre row post cells ci c1); auto.
    unfold cell_at, sheetData in Hat2. now rewrite Hrows in Hat2. }
  rewrite (getCell_scan sh' a2
             (pre ++ alter_cell (put_string k) ci row :: post)
             (si_t <$> si') c2 Ha2); auto.
  - rewrite Hv2, Htexts'.
    rewrite (array_get_offset _ k (SStr V)).
    + unfold or_null. now rewrite truthy_nonempty.
    + apply list_lookup_insert_eq. apply lookup_lt_Some in Hk. exact Hk.
  - unfold sh'. rewrite update_cell_table. reflexivity.
Qed.

Lemma write_through_shared_offset_foo_bar :
  exists (sh' : Sheet) (si' : list Si),
    setCell parsed_sheet "A1" (SStr "bar") KString = (sh', Ok ()) /\
    sst_si (_stringTable sh') = Many si' /\
    length si' = 2 /\
    si_t <$> si' = [Some (SStr "x"); Some (SStr "bar")] /\
    getCell sh' "A2" = Ok (Some (SStr "bar")).
Proof.
  apply (write_through_shared_offset parsed_sheet "A1" "A2"
           (parsed_cell "A1" 1) (parsed_cell "A2" 1)
           [mkSi (Some (SStr "x")) []; mkSi (Some (SStr "foo")) []]
           1 "foo" "bar").
  - apply cell_name_matches_iff. reflexivity.
  - apply cell_name_matches_iff. reflexivity.
  - discriminate.
  - reflexivity.
  - reflexivity.
  - reflexivity.
  - reflexivity.
  - reflexivity.
  - reflexivity.
  - reflexivity.
  - intros [|j] Hj; [discriminate | lia].
  - discriminate.
Defined.

(** C2 as stated fails when the shared offset is not the first entry with
    that text: in [two_foo_sheet] the cells [A1] and [A2] both read "foo"
    through offset 1 and offset 0 holds "foo" as well; the write through
    [A1] overwrites offset 0, and [A2] still reads "foo". *)
Lemma shared_offset_not_overwritten :
  cell_at two_foo_sheet "A1" = Ok (Some (parsed_cell "A1" 1)) /\
  cell_at two_foo_sheet "A2" = Ok (Some (parsed_cell "A2" 1)) /\
  si_texts (_stringTable two_foo_sheet) =
    Ok [Some (SStr "foo"); Some (SStr "foo")] /\
  getCell two_foo_sheet "A1" = Ok (Some (SStr "foo")) /\
  getCell two_foo_sheet "A2" = Ok (Some (SStr "foo")) /\
  snd (setCell two_foo_sheet "A1" (SStr "bar") KString) = Ok () /\
  si_texts (_stringTable (write "A1" "bar" two_foo_sheet)) =
    Ok [Some (SStr "bar"); Some (SStr "foo")] /\
  getCell (write "A1" "bar" two_foo_sheet) "A2" = Ok (Some (SStr "foo")) /\
  getCell (write "A1" "bar" two_foo_sheet) "A2" <> Ok (Some (SStr "bar")).
Proof. repeat split. discriminate. Qed.

(** Writing the same text to a second new cell does not by itself share an
    offset: each new cell gets an entry of its own. *)
Example later_write_gets_own_offset :
  cell_at (write "D2" "foo" (write "D1" "foo" parsed_sheet)) "D1" =
    Ok (Some (parsed_cell "D1" 2)) /\
  cell_at (write "D2" "foo" (write "D1" "foo" parsed_sheet)) "D2" =
    Ok (Some (parsed_cell "D2" 3)).
Proof. split; reflexivity. Qed.

(** * Decimal keys *)


Lemma string_of_uint_nonnil (d : uint) :
  d <> Nil -> NilZero.string_of_uint d = NilEmpty.string_of_uint d.
Proof. destruct d; congruence || reflexivity. Qed.

Lemma toString_pos (p : positive) :
  toString (Z.pos p) = NilEmpty.string_of_uint (Pos.to_uint p).
Proof.
  unfold toString. simpl.
  apply string_of_uint_nonnil, DecimalPos.Unsigned.to_uint_nonnil.
Qed.






(** [toString] is one-to-one. *)
Lemma toString_inj (n m : Z) : toString n = toString m -> n = m.
Proof.
  intros H. apply DecimalZ.to_int_inj.
  assert (Hn : forall z, NilZero.int_of_string (toString z) = Some (Z.to_int z)).
  { intros z. apply NilZero.isi; destruct z; simpl; try discriminate;
      intros E; injection E as E;
      now apply DecimalPos.Unsigned.to_uint_nonnil in E. }
  pose proof (Hn n) as H1. rewrite H, Hn in H1. now injection H1.
Qed.

(** * The three assignments *)

Lemma assign_formula (a : string) (sh2 : Sheet) pre row post cells ci c
    (v : scalar) (texts : list (option scalar)) :
  cell_name_matches a = true ->
  located a sh2 pre row post cells ci c ->
  si_texts (_stringTable sh2) = Ok texts ->
  assign sh2 (length pre) ci a v KFormula =
    (update_cell sh2 (length pre) ci (put_formula v), Ok ()).
Proof.
  intros Hm Hloc Htexts. unfold assign.
  now rewrite (getCell_located a sh2 pre row post cells ci c _ Hm Hloc Htexts).
Qed.

Lemma assign_number (a : string) (sh2 : Sheet) pre row post cells ci c
    (n : Z) (texts : list (option scalar)) :
  cell_name_matches a = true ->
  located a sh2 pre row post cells ci c ->
  si_texts (_stringTable sh2) = Ok texts ->
  assign sh2 (length pre) ci a (SNum n) KString =
    (update_cell sh2 (length pre) ci (put_number n), Ok ()).
Proof.
  intros Hm Hloc Htexts. unfold assign.
  now rewrite (getCell_located a sh2 pre row post cells ci c _ Hm Hloc Htexts).
Qed.

(** With the table an array, [assign] completes: it rewrites the target
    cell by one of the three assignments and leaves the table an array. *)
Lemma assign_total (a : string) (sh2 : Sheet) pre row post cells ci c
    (v : scalar) (k : kind) (texts : list (option scalar)) :
  cell_name_matches a = true ->
  located a sh2 pre row post cells ci c ->
  si_texts (_stringTable sh2) = Ok texts ->
  exists (f : Cell -> Cell) (sh' : Sheet),
    assign sh2 (length pre) ci a v k = (sh', Ok ()) /\
    located a sh' pre (alter_cell f ci row) post (alter f ci cells) ci (f c) /\
    is_many (sst_si (_stringTable sh')) = true.
Proof.
  intros Hm Hloc Htexts.
  assert (Hmany : is_many (sst_si (_stringTable sh2)) = true).
  { destruct (si_texts_many _ _ Htexts) as (si & -> & _). reflexivity. }
  destruct k; [destruct v as [n|s]|].
  - exists (put_number n), (update_cell sh2 (length pre) ci (put_number n)).
    split; [eapply assign_number; eauto|].
    split; [now apply located_update | now rewrite update_cell_table].
  - destruct (assign_string a sh2 pre row post cells ci c s texts Hm Hloc Htexts)
      as (idx & si' & sh' & Hrun & Hloc' & Hst & _).
    exists (put_string idx), sh'. repeat split; try apply Hloc'; auto.
    now rewrite Hst.
  - exists (put_formula v), (update_cell sh2 (length pre) ci (put_formula v)).
    split; [eapply assign_formula; eauto|].
    split; [now apply located_update | now rewrite update_cell_table].
Qed.

Lemma located_cell_at (a : string) (sh : Sheet) pre row post cells ci c :
  located a sh pre row post cells ci c -> cell_at sh a = Ok (Some c).
Proof.
  intros Hloc. pose proof (located_scan_rows _ _ _ _ _ _ _ _ Hloc) as Hscan.
  destruct Hloc as (Hrows & _). unfold cell_at, sheetData.
  now rewrite Hrows.
Qed.

Lemma located_normalized (a : string) (sh2 sh' : Sheet) pre row post cells
    ci c (f : Cell -> Cell) :
  normalized sh2 = true ->
  located a sh2 pre row post cells ci c ->
  located a sh' pre (alter_cell f ci row) post (alter f ci cells) ci (f c) ->
  is_many (sst_si (_stringTable sh')) = true ->
  normalized sh' = true.
Proof.
  intros Hn (Hrows2 & _) (Hrows & _ & Hcells & _) Hst.
  rewrite (normalized_rows _ _ Hrows2) in Hn.
  rewrite (normalized_rows _ _ Hrows), Hst, andb_true_r.
  apply andb_true_iff in Hn as [Hall _].
  rewrite forallb_app in *. simpl in *.
  apply andb_true_iff in Hall as [-> Hall].
  apply andb_true_iff in Hall as [_ ->]. now rewrite Hcells.
Qed.

(** On a normalized sheet [setCell] with an address of letters then digits
    completes, and the sheet it leaves is normalized. *)
Lemma setCell_total (sh : Sheet) (a : string) (v : scalar) (k : kind) :
  normalized sh = true -> cell_name_matches a = true ->
  exists sh', setCell sh a v k = (sh', Ok ()) /\ normalized sh' = true.
Proof.
  intros Hn Hm.
  destruct (setCell_reaches sh a v k Hn Hm)
    as (sh2 & pre & row & post & cells & ci & c & Hloc & Hst & Hn2 & Hrun & _).
  destruct (normalized_texts sh Hn) as [texts Htexts]. rewrite <- Hst in Htexts.
  destruct (assign_total a sh2 pre row post cells ci c v k texts Hm Hloc Htexts)
    as (f & sh' & Hassign & Hloc' & Hmany).
  exists sh'. split; [now rewrite Hrun|].
  eapply located_normalized; eauto.
Qed.

(** * What [getCell] returns for numeric and formula cells *)




(** * Value kinds of a cell *)

(** The cell as [setCell] finds it: the one the sheet holds, or a fresh one. *)
Lemma reached_cell (sh sh2 : Sheet) (a : string) pre row post cells ci c c0 :
  located a sh2 pre row post cells ci c ->
  cell_at sh a = Ok (Some c0) ->
  sh2 = sh \/
  (cell_at sh a = Ok None /\ sheetData_row (_data sh) = Many pre /\
   post = [] /\ row = with_cells (new_row a) [new_cell a]) ->
  c = c0.
Proof.
  intros Hloc Hat [-> | (Hnone & _)]; [|congruence].
  apply located_cell_at in Hloc. congruence.
Qed.

(** A string write keeps whatever formula the cell had. *)
Lemma string_write_keeps_formula (sh : Sheet) (a V : string) (c : Cell) :
  normalized sh = true -> cell_name_matches a = true ->
  cell_at sh a = Ok (Some c) ->
  exists (sh' : Sheet) (idx : nat),
    setCell sh a (SStr V) KString = (sh', Ok ()) /\
    cell_at sh' a = Ok (Some (put_string idx c)).
Proof.
  intros Hn Hm Hat.
  destruct (setCell_reaches sh a (SStr V) KString Hn Hm)
    as (sh2 & pre & row & post & cells & ci & c' & Hloc & Hst & _ & Hrun & Hcase).
  assert (c' = c) as -> by (eapply reached_cell; eauto).
  destruct (normalized_texts sh Hn) as [texts Htexts]. rewrite <- Hst in Htexts.
  destruct (assign_string a sh2 pre row post cells ci c V texts Hm Hloc Htexts)
    as (idx & si' & sh' & Hassign & Hloc' & _).
  exists sh', idx. split; [now rewrite Hrun|].
  eapply located_cell_at; eauto.
Qed.

(** A number write keeps it as well. *)
Lemma number_write_keeps_formula (sh : Sheet) (a : string) (n : Z) (c : Cell) :
  normalized sh = true -> cell_name_matches a = true ->
  cell_at sh a = Ok (Some c) ->
  exists sh' : Sheet,
    setCell sh a (SNum n) KString = (sh', Ok ()) /\
    cell_at sh' a = Ok (Some (put_number n c)).
Proof.
  intros Hn Hm Hat.
  destruct (setCell_reaches sh a (SNum n) KString Hn Hm)
    as (sh2 & pre & row & post & cells & ci & c' & Hloc & Hst & _ & Hrun & Hcase).
  assert (c' = c) as -> by (eapply reached_cell; eauto).
  destruct (normalized_texts sh Hn) as [texts Htexts]. rewrite <- Hst in Htexts.
  eexists. split; [rewrite Hrun; eapply assign_number; eauto|].
  eapply located_cell_at. apply located_update; [exact Hloc | reflexivity].
Qed.

(** A formula write removes the literal and the type marker. *)
Lemma formula_write_clears (sh : Sheet) (a : string) (v : scalar) :
  normalized sh = true -> cell_name_matches a = true ->
  exists (sh' : Sheet) (c : Cell),
    setCell sh a v KFormula = (sh', Ok ()) /\
    cell_at sh' a = Ok (Some (put_formula v c)) /\
    kinds_exclusive (put_formula v c) = true.
Proof.
  intros Hn Hm.
  destruct (setCell_reaches sh a v KFormula Hn Hm)
    as (sh2 & pre & row & post & cells & ci & c & Hloc & Hst & _ & Hrun & _).
  destruct (normalized_texts sh Hn) as [texts Htexts]. rewrite <- Hst in Htexts.
  eexists _, c. split; [rewrite Hrun; eapply assign_formula; eauto|].
  split; [|reflexivity].
  eapply located_cell_at. apply located_update; [exact Hloc | reflexivity].
Qed.

(** C3: a formula written to [A1] and then overwritten with a string.  The
    cell ends with the shared-string marker and offset, and with the formula
    still in place: two value kinds on one cell.  In the other order the
    formula write leaves no literal and no marker. *)
Theorem formula_then_string_keeps_formula :
  setCell parsed_sheet "A1" (SStr "=1+1") KFormula =
    (run parsed_sheet "A1" (SStr "=1+1") KFormula, Ok ()) /\
  cell_at (run parsed_sheet "A1" (SStr "=1+1") KFormula) "A1" =
    Ok (Some (mkCell (Some "A1") None None (Some (SStr "=1+1")) [])) /\
  snd (setCell (run parsed_sheet "A1" (SStr "=1+1") KFormula) "A1" (SStr "y")
         KString) = Ok () /\
  cell_at (write "A1" "y" (run parsed_sheet "A1" (SStr "=1+1") KFormula)) "A1" =
    Ok (Some (mkCell (Some "A1") (Some (SNum 2)) (Some "s")
                (Some (SStr "=1+1")) [])) /\
  kinds_exclusive
    (mkCell (Some "A1") (Some (SNum 2)) (Some "s") (Some (SStr "=1+1")) []) =
    false /\
  cell_at (run (write "A1" "y" parsed_sheet) "A1" (SStr "=1+1") KFormula) "A1" =
    Ok (Some (mkCell (Some "A1") None None (Some (SStr "=1+1")) [])).
Proof. repeat split. Qed.

(** * Rows *)

(** Whenever no cell of that name exists, a row is pushed, whatever rows the
    sheet has. *)
Lemma absent_cell_appends_row (sh : Sheet) (a : string) (v : scalar) (k : kind)
    (rows0 : list Row) :
  normalized sh = true -> cell_name_matches a = true ->
  sheetData_row (_data sh) = Many rows0 ->
  cell_at sh a = Ok None ->
  exists (sh' : Sheet) (row' : Row),
    setCell sh a v k = (sh', Ok ()) /\
    sheetData_row (_data sh') = Many (rows0 ++ [row']) /\
    r_r row' = Some (SNum (parseInt (first_digits a))).
Proof.
  intros Hn Hm Hrows Hat.
  destruct (setCell_reaches sh a v k Hn Hm)
    as (sh2 & pre & row & post & cells & ci & c & Hloc & Hst & _ & Hrun & Hcase).
  destruct Hcase as [-> | (_ & Hpre & -> & ->)].
  { apply located_cell_at in Hloc. congruence. }
  assert (pre = rows0) as -> by congruence.
  destruct (normalized_texts sh Hn) as [texts Htexts]. rewrite <- Hst in Htexts.
  destruct (assign_total a sh2 _ _ _ cells ci c v k texts Hm Hloc Htexts)
    as (f & sh' & Hassign & (Hrows' & _) & _).
  exists sh', (alter_cell f ci (with_cells (new_row a) [new_cell a])).
  split; [now rewrite Hrun|]. split; [exact Hrows'|]. reflexivity.
Qed.

(** C5: rows 1 and 2 exist; writing the new cell [C1] pushes a third row
    with identifier 1 instead of adding the cell to the first. *)
Theorem new_cell_in_existing_row_duplicates_row :
  row_id <$> rows_of parsed_sheet = [Some "1"; Some "2"] /\
  cell_at parsed_sheet "C1" = Ok None /\
  snd (setCell parsed_sheet "C1" (SStr "y") KString) = Ok () /\
  row_id <$> rows_of (write "C1" "y" parsed_sheet) =
    [Some "1"; Some "2"; Some "1"] /\
  rows_of (write "C1" "y" parsed_sheet) =
    rows_of parsed_sheet ++
    [mkRow (Some (SNum 1)) (Many [parsed_cell "C1" 2]) []].
Proof. repeat split. Qed.

(** * Failure part way *)

(** C7: on a workbook with one shared string, [setCell] pushes the new row
    and the new cell, and then throws when it reads the current value: the
    pushed row stays. *)
Theorem setCell_throws_after_push :
  cell_name_matches "C3" = true /\
  setCell one_string_sheet "C3" (SStr "x") KString =
    (with_rows one_string_sheet
       (rows_of one_string_sheet ++
        [mkRow (Some (SNum 3)) (Many [new_cell "C3"]) []]),
     Throw TypeError) /\
  fst (setCell one_string_sheet "C3" (SStr "x") KString) <> one_string_sheet.
Proof. repeat split. discriminate. Qed.

(** On a normalized sheet no call fails part way: [setCell_total]; and an
    address outside the language is refused before anything is touched. *)
Lemma setCell_rejects_untouched (sh : Sheet) (a : string) (v : scalar)
    (k : kind) :
  cell_name_matches a = false -> setCell sh a v k = (sh, Throw InvalidCellName).
Proof. intros H. unfold setCell. now rewrite H. Qed.

(** * Bare objects in place of arrays *)

Lemma getCell_not_array_rows (sh : Sheet) (a : string) :
  cell_name_matches a = true ->
  is_many (sheetData_row (_data sh)) = false ->
  getCell sh a = Throw TypeError.
Proof.
  intros Hm Hrows. unfold getCell, sheetData, si_texts. rewrite Hm. simpl.
  destruct (sst_si (_stringTable sh)); simpl; try reflexivity.
  now destruct (sheetData_row (_data sh)).
Qed.

Lemma getCell_not_array_strings (sh : Sheet) (a : string) :
  cell_name_matches a = true ->
  is_many (sst_si (_stringTable sh)) = false ->
  getCell sh a = Throw TypeError.
Proof.
  intros Hm Hsi. unfold getCell, si_texts. rewrite Hm. simpl.
  now destruct (sst_si (_stringTable sh)).
Qed.

Lemma setCell_not_array_rows (sh : Sheet) (a : string) (v : scalar) (k : kind) :
  cell_name_matches a = true ->
  is_many (sheetData_row (_data sh)) = false ->
  setCell sh a v k = (sh, Throw TypeError).
Proof.
  intros Hm Hrows. unfold setCell, sheetData. rewrite Hm. simpl.
  now destruct (sheetData_row (_data sh)).
Qed.

(** C10: the three collapsed shapes.  With one row both operations throw;
    with one cell in a row [getCell] works and [setCell] on that cell
    throws; with one shared string both throw. *)
Theorem collapsed_children_throw :
  (getCell one_row_sheet "A1" = Throw TypeError /\
   setCell one_row_sheet "A1" (SStr "x") KString =
     (one_row_sheet, Throw TypeError)) /\
  (getCell one_cell_rows_sheet "A2" = Ok (Some (SStr "x")) /\
   setCell one_cell_rows_sheet "A2" (SStr "x") KString =
     (one_cell_rows_sheet, Throw TypeError)) /\
  (getCell one_string_sheet "A1" = Throw TypeError /\
   snd (setCell one_string_sheet "A1" (SStr "x") KString) = Throw TypeError).
Proof. repeat split. Qed.

(** * Saving *)

Lemma string_length_append (s t : string) :
  String.length (String.append s t) = String.length s + String.length t.
Proof.
  induction s as [|a s IH]; [reflexivity|].
  rewrite append_cons. simpl. now rewrite IH.
Qed.

Lemma append_inj_r (t s1 s2 : string) :
  String.append s1 t = String.append s2 t -> s1 = s2.
Proof.
  revert s2. induction s1 as [|a s1 IH]; intros [|b s2] H.
  - reflexivity.
  - apply (f_equal String.length) in H.
    rewrite append_nil, append_cons in H. simpl in H.
    rewrite string_length_append in H. lia.
  - apply (f_equal String.length) in H.
    rewrite append_nil, append_cons in H. simpl in H.
    rewrite string_length_append in H. lia.
  - rewrite !append_cons in H. injection H as -> H. f_equal. now apply IH.
Qed.

(** Distinct sheet indexes name distinct entries, none of them the shared
    strings. *)
Lemma sheet_entry_inj (i j : nat) : sheet_entry i = sheet_entry j -> i = j.
Proof.
  unfold sheet_entry. intros H.
  apply String.app_inj, append_inj_r, toString_inj in H. lia.
Qed.

Lemma sheet_entry_not_sharedStrings (i : nat) :
  sheet_entry i <> sharedStrings_entry.
Proof.
  unfold sheet_entry, sharedStrings_entry. rewrite !append_cons. discriminate.
Qed.

Lemma obj_get_set_eq (o : entries) (key : string) (v : bytes) :
  obj_get (obj_set o key v) key = Some v.
Proof.
  induction o as [|[k w] o IH]; simpl.
  - now rewrite String.eqb_refl.
  - destruct (String.eqb k key) eqn:E; simpl; now rewrite E.
Qed.

Lemma obj_get_set_ne (o : entries) (key key' : string) (v : bytes) :
  key <> key' -> obj_get (obj_set o key v) key' = obj_get o key'.
Proof.
  intros Hne. induction o as [|[k w] o IH]; simpl.
  - destruct (String.eqb key key') eqn:E; [|reflexivity].
    apply String.eqb_eq in E. congruence.
  - destruct (String.eqb k key) eqn:E; simpl.
    + apply String.eqb_eq in E. subst k.
      destruct (String.eqb key key') eqn:E'; [|reflexivity].
      apply String.eqb_eq in E'. congruence.
    + now rewrite IH.
Qed.

Lemma Map_get_elem (m : sheet_map) (i : nat) (ws : Worksheet) :
  Map_get m i = Some ws -> (i, ws) ∈ m.
Proof.
  induction m as [|[j w] m IH]; simpl; [discriminate|].
  destruct (Nat.eqb j i) eqn:E.
  - apply Nat.eqb_eq in E. intros [= ->]. subst. left.
  - intros H. right. auto.
Qed.

Lemma Map_get_None (m : sheet_map) (i : nat) :
  Map_get m i = None -> i ∉ fst <$> m.
Proof.
  induction m as [|[j w] m IH]; simpl; intros H Hin.
  - inversion Hin.
  - destruct (Nat.eqb j i) eqn:E; [discriminate|].
    apply Nat.eqb_neq in E. apply elem_of_cons in Hin as [->|Hin]; [|now apply IH].
    now apply E.
Qed.

Section CodecFacts.
Variable clock : Type.
Variable build_sheet : Worksheet -> string.
Variable build_strings : StringTable -> string.
Variable encode : string -> bytes.
Variable zipSync : clock -> entries -> bytes.

Lemma save_sheets_cons (j : nat) (w : Worksheet) (sheets : sheet_map)
    (file : entries) :
  save_sheets build_sheet encode file ((j, w) :: sheets) =
  save_sheets build_sheet encode
    (obj_set file (sheet_entry j) (encode (build_sheet w))) sheets.
Proof. reflexivity. Qed.

Lemma save_sheets_other (sheets : sheet_map) (file : entries) (key : string) :
  (forall i, i ∈ fst <$> sheets -> key <> sheet_entry i) ->
  obj_get (save_sheets build_sheet encode file sheets) key = obj_get file key.
Proof.
  revert file. induction sheets as [|[j ws] sheets IH]; intros file Hkey;
    [reflexivity|].
  rewrite save_sheets_cons, IH.
  - apply obj_get_set_ne. intros E. apply (Hkey j); [left|auto].
  - intros i Hi. apply Hkey. now right.
Qed.

Lemma save_sheets_own (sheets : sheet_map) (file : entries) (i : nat)
    (ws : Worksheet) :
  NoDup (fst <$> sheets) -> (i, ws) ∈ sheets ->
  obj_get (save_sheets build_sheet encode file sheets) (sheet_entry i) =
    Some (encode (build_sheet ws)).
Proof.
  revert file. induction sheets as [|[j w] sheets IH]; intros file Hnd Hin.
  - inversion Hin.
  - rewrite fmap_cons in Hnd. apply NoDup_cons in Hnd as [Hj Hnd].
    apply elem_of_cons in Hin as [[= -> ->]|Hin].
    + rewrite save_sheets_cons, save_sheets_other; [apply obj_get_set_eq|].
      intros i Hi E. apply sheet_entry_inj in E. subst. exact (Hj Hi).
    + rewrite save_sheets_cons. now apply IH.
Qed.

(** What [saveBuffer] does with the Map it finds: it hands to [zipSync] the
    entries of the archive with, for every index [i] of the Map, the entry
    [xl/worksheets/sheet(i+1).xml] set to the serialization of the tree
    stored under [i], the shared-strings entry set to the serialization of
    the table, and every other entry as it was. *)
Lemma saveBuffer_overwrites (now : clock) (wb : TinyExcel) :
  NoDup (fst <$> _sheets wb) ->
  exists file' : entries,
    saveBuffer build_sheet build_strings encode zipSync now wb =
      (mkTinyExcel (_path wb) file' (_sheets wb) (_sharedStrings wb),
       zipSync now file') /\
    (forall i ws,
       Map_get (_sheets wb) i = Some ws ->
       obj_get file' (sheet_entry i) = Some (encode (build_sheet ws))) /\
    obj_get file' sharedStrings_entry =
      Some (encode (build_strings (_sharedStrings wb))) /\
    (forall key,
       key <> sharedStrings_entry ->
       (forall i, Map_get (_sheets wb) i <> None -> key <> sheet_entry i) ->
       obj_get file' key = obj_get (_file wb) key).
Proof.
  intros Hnd. eexists. split; [reflexivity|]. unfold saved_entries.
  split; [|split].
  - intros i ws Hget.
    rewrite obj_get_set_ne
      by (apply not_eq_sym, sheet_entry_not_sharedStrings).
    apply save_sheets_own; [exact Hnd | now apply Map_get_elem].
  - apply obj_get_set_eq.
  - intros key Hkey Hsheets.
    rewrite obj_get_set_ne by (apply not_eq_sym; exact Hkey).
    apply save_sheets_other. intros i Hi. apply Hsheets.
    intros Hnone. now apply Map_get_None in Hnone.
Qed.
End CodecFacts.

Example saved_sample :
  saved_entries sample_build_sheet sample_build_strings text_bytes sample_book =
  [("xl/styles.xml", text_bytes "<styleSheet/>");
   ("xl/worksheets/sheet1.xml", text_bytes "<worksheet rows=2/>");
   ("xl/sharedStrings.xml", text_bytes "<sst/>")].
Proof. reflexivity. Qed.

(** * Loading *)

Lemma Map_set_keys (m : sheet_map) (i : nat) (ws : Worksheet) :
  fst <$> Map_set m i ws =
  if decide (i ∈ fst <$> m) then fst <$> m else (fst <$> m) ++ [i].
Proof.
  induction m as [|[j w] m IH]; [reflexivity|].
  simpl Map_set. destruct (Nat.eqb j i) eqn:E.
  - apply Nat.eqb_eq in E. subst. rewrite !fmap_cons. simpl.
    rewrite decide_True by left. reflexivity.
  - apply Nat.eqb_neq in E. rewrite !fmap_cons, IH. simpl.
    destruct (decide (i ∈ fst <$> m)) as [Hin|Hin].
    + rewrite decide_True by now right. reflexivity.
    + rewrite decide_False; [reflexivity|].
      intros [->|H]%elem_of_cons; [now apply E | now apply Hin].
Qed.

Lemma Map_set_NoDup (m : sheet_map) (i : nat) (ws : Worksheet) :
  NoDup (fst <$> m) -> NoDup (fst <$> Map_set m i ws).
Proof.
  intros H. rewrite Map_set_keys.
  destruct (decide (i ∈ fst <$> m)) as [Hin|Hin]; [exact H|].
  apply NoDup_app. repeat split; auto using NoDup_singleton.
  intros x Hx ->%list_elem_of_singleton. now apply Hin.
Qed.

Section LoadFacts.
Variable parse_sheet : string -> option Worksheet.
Variable parse_strings : string -> option StringTable.
Variable build_sheet : Worksheet -> string.
Variable build_strings : StringTable -> string.
Variable decode : bytes -> option string.
Variable encode : string -> bytes.

(** The Map the loop of [load] leaves holds each index once, also when the
    loop throws. *)
Lemma load_sheets_NoDup (file : entries) (exclude : list nat)
    (keys : list string) (i : nat) (m : sheet_map) :
  NoDup (fst <$> m) ->
  NoDup (fst <$> fst (load_sheets parse_sheet decode file exclude keys i m)).
Proof.
  revert i m. induction keys as [|key keys IH]; simpl; intros i m Hnd.
  - exact Hnd.
  - destruct (existsb (Nat.eqb i) exclude); [now apply IH|].
    destruct (obj_get file key) as [sheetFile|]; [|exact Hnd].
    destruct (read_sheet parse_sheet decode sheetFile) as [parsed|];
      [|exact Hnd].
    apply IH. now apply Map_set_NoDup.
Qed.

Lemma load_NoDup (path : string) (file : entries) (exclude : list nat)
    (wb : TinyExcel) :
  load parse_sheet parse_strings decode path file exclude = inl wb ->
  NoDup (fst <$> _sheets wb).
Proof.
  unfold load. destruct (obj_get file sharedStrings_entry) as [ss|];
    [|discriminate].
  pose proof (load_sheets_NoDup file exclude (sheet_keys file) 0 []
                (NoDup_nil_2 (A:=nat))) as Hnd.
  destruct (load_sheets parse_sheet decode file exclude (sheet_keys file) 0 [])
    as [m [e|]]; [discriminate|].
  destruct (read_strings parse_strings decode ss) as [st|]; [|discriminate].
  intros [= <-]. exact Hnd.
Qed.

(** C9: [saveBuffer] writes the tree of index [i] to the entry
    [xl/worksheets/sheet(i+1).xml], and [load] gives a tree the index of its
    position among the worksheet entries of the archive, whatever the number
    in the entry's name.  On an archive that lists [sheet2.xml] before
    [sheet1.xml], [load] followed at once by [saveBuffer] writes the tree
    read from [sheet2.xml] over [sheet1.xml] and the tree read from
    [sheet1.xml] over [sheet2.xml]: the entry of file N does not receive the
    tree that was loaded from it. *)
Theorem sheets_saved_under_position (b1 b2 bs : bytes) (w1 w2 : Worksheet)
    (st : StringTable) :
  read_sheet parse_sheet decode b1 = Some w1 ->
  read_sheet parse_sheet decode b2 = Some w2 ->
  read_strings parse_strings decode bs = Some st ->
  exists wb,
    load parse_sheet parse_strings decode "book.xlsx"
      [("xl/worksheets/sheet2.xml", b2);
       ("xl/worksheets/sheet1.xml", b1);
       ("xl/sharedStrings.xml", bs)] [] = inl wb /\
    getSheet wb 0 = Some (mkSheet 0 w2 st) /\
    getSheet wb 1 = Some (mkSheet 1 w1 st) /\
    saved_entries build_sheet build_strings encode wb =
      [("xl/worksheets/sheet2.xml", encode (build_sheet w1));
       ("xl/worksheets/sheet1.xml", encode (build_sheet w2));
       ("xl/sharedStrings.xml", encode (build_strings st))].
Proof.
  intros H1 H2 Hs.
  exists (mkTinyExcel "book.xlsx"
            [("xl/worksheets/sheet2.xml", b2);
             ("xl/worksheets/sheet1.xml", b1);
             ("xl/sharedStrings.xml", bs)]
            [(0, w2); (1, w1)] st).
  split; [|repeat split].
  unfold load, sheet_keys. simpl. rewrite H2. simpl. rewrite H1. simpl.
  now rewrite Hs.
Qed.

(** The same with a gap in the names: the tree of [sheet3.xml] gets index 1
    and is saved as [sheet2.xml], a new entry, next to the old
    [sheet3.xml]. *)
Example index_is_position (b1 b3 bs : bytes) (w1 w3 : Worksheet)
    (st : StringTable) :
  read_sheet parse_sheet decode b1 = Some w1 ->
  read_sheet parse_sheet decode b3 = Some w3 ->
  read_strings parse_strings decode bs = Some st ->
  let file := [("xl/worksheets/sheet1.xml", b1);
               ("xl/worksheets/sheet3.xml", b3);
               ("xl/sharedStrings.xml", bs)] in
  let wb := mkTinyExcel "book.xlsx" file [(0, w1); (1, w3)] st in
  load parse_sheet parse_strings decode "book.xlsx" file [] = inl wb /\
  saved_entries build_sheet build_strings encode wb =
    [("xl/worksheets/sheet1.xml", encode (build_sheet w1));
     ("xl/worksheets/sheet3.xml", b3);
     ("xl/sharedStrings.xml", encode (build_strings st));
     ("xl/worksheets/sheet2.xml", encode (build_sheet w3))].
Proof.
  intros H1 H3 Hs. split; [|reflexivity].
  unfold load, sheet_keys. simpl. rewrite H1. simpl. rewrite H3. simpl.
  now rewrite Hs.
Qed.
End LoadFacts.

Lemma sheets_saved_under_position_sample :
  exists wb,
    load raw_parse_sheet raw_parse_strings raw_decode "book.xlsx"
      swapped_archive [] = inl wb /\
    getSheet wb 0 =
      Some (mkSheet 0 (mkWorksheet Absent [("raw", "<worksheet>2</worksheet>")])
              (mkStringTable Absent [("raw", "<sst/>")])) /\
    getSheet wb 1 =
      Some (mkSheet 1 (mkWorksheet Absent [("raw", "<worksheet>1</worksheet>")])
              (mkStringTable Absent [("raw", "<sst/>")])) /\
    saved_entries raw_build_sheet raw_build_strings text_bytes wb =
      [("xl/worksheets/sheet2.xml", text_bytes "<worksheet>1</worksheet>");
       ("xl/worksheets/sheet1.xml", text_bytes "<worksheet>2</worksheet>");
       ("xl/sharedStrings.xml", text_bytes "<sst/>")].
Proof.
  apply (sheets_saved_under_position raw_parse_sheet raw_parse_strings
           raw_build_sheet raw_build_strings raw_decode text_bytes
           (text_bytes "<worksheet>1</worksheet>")
           (text_bytes "<worksheet>2</worksheet>") (text_bytes "<sst/>")
           (mkWorksheet Absent [("raw", "<worksheet>1</worksheet>")])
           (mkWorksheet Absent [("raw", "<worksheet>2</worksheet>")])
           (mkStringTable Absent [("raw", "<sst/>")]));
    reflexivity.
Defined.

(** * More on [setCell]: what a completed call leaves *)

Lemma getCell_cell_at (sh : Sheet) (a : string) (texts : list (option scalar)) :
  cell_name_matches a = true ->
  si_texts (_stringTable sh) = Ok texts ->
  getCell sh a =
  match cell_at sh a with
  | Ok (Some c) => Ok (or_null (array_get texts (c_v c)))
  | Ok None => Ok None
  | Throw e => Throw e
  end.
Proof.
  intros Hm Ht. unfold getCell, cell_at. rewrite Hm, Ht. simpl.
  destruct (sheetData (_data sh)) as [rows|e]; simpl; [|reflexivity].
  now destruct (scan_rows a rows) as [[c|]|e].
Qed.

Lemma update_cell_with_table (sh : Sheet) (ri ci : nat) (f : Cell -> Cell) :
  update_cell (with_table sh (_stringTable sh)) ri ci f = update_cell sh ri ci f.
Proof.
  destruct sh as [i d st]. unfold update_cell, with_table. simpl.
  now destruct (sheetData_row d).
Qed.

(** The end of [setCell] in one form for the three branches: the target
    cell is rewritten by [f], the table becomes [st']. *)
Lemma assign_outcome (a : string) (sh2 : Sheet) pre row post cells ci c
    (v : scalar) (k : kind) (texts : list (option scalar)) :
  cell_name_matches a = true ->
  located a sh2 pre row post cells ci c ->
  si_texts (_stringTable sh2) = Ok texts ->
  exists (f : Cell -> Cell) (st' : StringTable),
    assign sh2 (length pre) ci a v k =
      (update_cell (with_table sh2 st') (length pre) ci f, Ok ()) /\
    (forall x, c_r (f x) = c_r x /\ c_rest (f x) = c_rest x) /\
    match k, v with
    | KFormula, _ => f = put_formula v /\ st' = _stringTable sh2
    | KString, SNum n => f = put_number n /\ st' = _stringTable sh2
    | KString, SStr s =>
        exists idx,
          f = put_string idx /\
          _getSharedString (_stringTable sh2)
            (or_empty (or_null (array_get texts (c_v c)))) s = (st', Ok idx)
    end.
Proof.
  intros Hm Hloc Htexts. destruct k; [destruct v as [n|s]|].
  - exists (put_number n), (_stringTable sh2).
    rewrite update_cell_with_table. split; [eapply assign_number; eauto|].
    split; [intros x; split; reflexivity | split; reflexivity].
  - destruct (si_texts_many _ _ Htexts) as (si & Hst & ->).
    destruct (getSharedString_text si (sst_rest (_stringTable sh2))
                (or_empty (or_null (array_get (si_t <$> si) (c_v c)))) s)
      as (idx & si' & Hrun & _).
    rewrite <- Hst in Hrun.
    exists (put_string idx), (mkStringTable (Many si') (sst_rest (_stringTable sh2))).
    split; [|split; [intros x; split; reflexivity | eauto]].
    unfold assign.
    rewrite (getCell_located a sh2 pre row post cells ci c _ Hm Hloc Htexts).
    now rewrite Hrun.
  - exists (put_formula v), (_stringTable sh2).
    rewrite update_cell_with_table. split; [eapply assign_formula; eauto|].
    split; [intros x; split; reflexivity | split; reflexivity].
Qed.

(** [setCell_reaches] with the reading of the cell before the write: it is
    what [getCell] returns on the sheet the call starts from. *)
Lemma setCell_reaches_reading (sh : Sheet) (a : string) (v : scalar) (k : kind) :
  normalized sh = true -> cell_name_matches a = true ->
  exists sh2 pre row post cells ci c texts,
    located a sh2 pre row post cells ci c /\
    _stringTable sh2 = _stringTable sh /\
    si_texts (_stringTable sh) = Ok texts /\
    getCell sh a = Ok (or_null (array_get texts (c_v c))) /\
    setCell sh a v k = assign sh2 (length pre) ci a v k /\
    ((sh2 = sh /\ cell_at sh a = Ok (Some c)) \/
     (cell_at sh a = Ok None /\ sheetData_row (_data sh) = Many pre /\
      post = [] /\ row = with_cells (new_row a) [new_cell a] /\
      c = new_cell a)).
Proof.
  intros Hn Hm.
  destruct (setCell_reaches sh a v k Hn Hm)
    as (sh2 & pre & row & post & cells & ci & c & Hloc & Hst & _ & Hrun & Hcase).
  destruct (normalized_texts sh Hn) as [texts Htexts].
  exists sh2, pre, row, post, cells, ci, c, texts.
  split; [exact Hloc|]. split; [exact Hst|]. split; [exact Htexts|].
  rewrite (getCell_cell_at sh a texts Hm Htexts).
  destruct Hcase as [-> | (Hnone & Hpre & -> & ->)].
  - rewrite (located_cell_at _ _ _ _ _ _ _ _ Hloc).
    split; [reflexivity|]. split; [exact Hrun|]. left. split; reflexivity.
  - assert (c = new_cell a) as ->.
    { destruct Hloc as (_ & _ & Hcells & Hfind). simpl in Hcells.
      injection Hcells as <-. simpl in Hfind.
      rewrite decide_True in Hfind by reflexivity. now injection Hfind. }
    rewrite Hnone. split; [reflexivity|]. split; [exact Hrun|].
    right. repeat split; auto.
Qed.

Lemma scan_rows_snoc_clean (a : string) (rows : list Row) (row : Row) :
  clean a row -> scan_rows a (rows ++ [row]) = scan_rows a rows.
Proof.
  intros Hrow. induction rows as [|r rows IH]; simpl.
  - unfold clean in Hrow. now rewrite Hrow.
  - now rewrite IH.
Qed.

Lemma rows_after_update (a : string) (sh : Sheet) pre row post cells ci c
    (f : Cell -> Cell) (st : StringTable) :
  located a sh pre row post cells ci c ->
  sheetData_row (_data (update_cell (with_table sh st) (length pre) ci f)) =
    Many (pre ++ with_cells row (alter f ci cells) :: post) /\
  _stringTable (update_cell (with_table sh st) (length pre) ci f) = st.
Proof.
  intros (Hrows & _ & Hcells & _). unfold update_cell, with_table. simpl.
  rewrite Hrows. simpl. split; [|reflexivity].
  replace (length pre) with (length pre + 0) by lia.
  rewrite alter_app_r. simpl. unfold alter_cell. now rewrite Hcells.
Qed.

(** Everything a call on a normalized sheet does, in one statement: the
    cell it reaches ([c], found or new), the reading before the write, the
    rewritten cell [f c] in place, the rows around it as they were, and the
    table [st']. *)
Lemma setCell_result (sh : Sheet) (a : string) (v : scalar) (k : kind) :
  normalized sh = true -> cell_name_matches a = true ->
  exists sh2 pre row post cells ci c texts f st' sh',
    located a sh2 pre row post cells ci c /\
    si_texts (_stringTable sh) = Ok texts /\
    getCell sh a = Ok (or_null (array_get texts (c_v c))) /\
    setCell sh a v k = (sh', Ok ()) /\
    sheetData_row (_data sh') =
      Many (pre ++ with_cells row (alter f ci cells) :: post) /\
    _stringTable sh' = st' /\
    cell_at sh' a = Ok (Some (f c)) /\
    (forall x, c_r (f x) = c_r x /\ c_rest (f x) = c_rest x) /\
    match k, v with
    | KFormula, _ => f = put_formula v /\ st' = _stringTable sh
    | KString, SNum n => f = put_number n /\ st' = _stringTable sh
    | KString, SStr s =>
        exists idx,
          f = put_string idx /\
          _getSharedString (_stringTable sh)
            (or_empty (or_null (array_get texts (c_v c)))) s = (st', Ok idx)
    end /\
    ((sh2 = sh /\ cell_at sh a = Ok (Some c)) \/
     (cell_at sh a = Ok None /\ sheetData_row (_data sh) = Many pre /\
      post = [] /\ row = with_cells (new_row a) [new_cell a] /\
      c = new_cell a)).
Proof.
  intros Hn Hm.
  destruct (setCell_reaches_reading sh a v k Hn Hm)
    as (sh2 & pre & row & post & cells & ci & c & texts
        & Hloc & Hst & Htexts & Hget & Hrun & Hcase).
  pose proof Htexts as Htexts2. rewrite <- Hst in Htexts2.
  destruct (assign_outcome a sh2 pre row post cells ci c v k texts Hm Hloc Htexts2)
    as (f & st' & Hassign & Hf & Hkind).
  destruct (rows_after_update a sh2 pre row post cells ci c f st' Hloc)
    as [Hrows' Hst'].
  exists sh2, pre, row, post, cells, ci, c, texts, f, st',
    (update_cell (with_table sh2 st') (length pre) ci f).
  split; [exact Hloc|]. split; [exact Htexts|]. split; [exact Hget|].
  split; [now rewrite Hrun|]. split; [exact Hrows'|]. split; [exact Hst'|].
  split.
  { eapply located_cell_at.
    apply (located_update a (with_table sh2 st') pre row post cells ci c f).
    - now apply located_with_table.
    - apply Hf. }
  split; [exact Hf|]. split; [|exact Hcase].
  rewrite Hst in Hkind. exact Hkind.
Qed.

(** * Sequences of writes *)

(** X1: on a normalized sheet every run of writes to addresses of letters
    then digits completes, and leaves a normalized sheet: no such call can
    throw, whatever was written before. *)
Theorem setCells_completes (sh : Sheet) (ops : list (string * scalar * kind)) :
  normalized sh = true ->
  Forall (fun op => letters_then_digits (fst (fst op))) ops ->
  exists sh', setCells sh ops = (sh', Ok ()) /\ normalized sh' = true.
Proof.
  intros Hn Hops. revert sh Hn.
  induction Hops as [|[[a v] k] ops Ha _ IH]; intros sh Hn; simpl.
  - eauto.
  - simpl in Ha. apply cell_name_matches_iff in Ha.
    destruct (setCell_reaches sh a v k Hn Ha)
      as (sh2 & pre & row & post & cells & ci & c & Hloc & Hst & Hn2 & Hrun & _).
    destruct (normalized_texts sh Hn) as [texts Htexts].
    rewrite <- Hst in Htexts.
    destruct (assign_total a sh2 pre row post cells ci c v k texts Ha Hloc Htexts)
      as (f & sh1 & Hassign & Hloc1 & Hmany).
    rewrite Hrun, Hassign. apply IH.
    eapply located_normalized; eauto.
Qed.

Lemma setCells_completes_sample :
  exists sh',
    setCells parsed_sheet
      [("C3", SStr "new", KString); ("A1", SNum 7, KString);
       ("B2", SStr "=A1*2", KFormula); ("C3", SStr "again", KString)] =
      (sh', Ok ()) /\
    normalized sh' = true.
Proof.
  apply (setCells_completes parsed_sheet).
  - reflexivity.
  - repeat constructor; apply cell_name_matches_iff; reflexivity.
Defined.

(** * The cells a write does not name *)

Lemma alter_cell_many (f : Cell -> Cell) (ci : nat) (row : Row)
    (cells : list Cell) :
  r_c row = Many cells ->
  alter_cell f ci row = with_cells row (alter f ci cells).
Proof. intros H. unfold alter_cell. now rewrite H. Qed.

Lemma other_cells_kept (sh sh' : Sheet) (a a2 : string) (v : scalar)
    (k : kind) :
  normalized sh = true -> cell_name_matches a = true -> a2 <> a ->
  setCell sh a v k = (sh', Ok ()) ->
  cell_at sh' a2 = cell_at sh a2.
Proof.
  intros Hn Ha Hne Hdone.
  destruct (setCell_result sh a v k Hn Ha)
    as (sh2 & pre & row & post & cells & ci & c & texts & f & st' & sh1
        & Hloc & _ & _ & Hrun & Hrows' & _ & _ & Hf & _ & Hcase).
  rewrite Hrun in Hdone. injection Hdone as ->.
  assert (Hscan : scan_rows a2 (pre ++ with_cells row (alter f ci cells) :: post)
                  = scan_rows a2 (pre ++ row :: post)).
  { pose proof Hloc as (_ & _ & Hcells & _).
    rewrite <- (alter_cell_many f ci row cells Hcells).
    apply (scan_other_name a a2 sh2 pre row post cells ci c f); auto.
    intros x. apply Hf. }
  unfold cell_at at 1. unfold sheetData. rewrite Hrows'. simpl. rewrite Hscan.
  destruct Hcase as [(-> & _) | (_ & Hpre & -> & -> & _)].
  - destruct Hloc as (Hrows & _). unfold cell_at, sheetData. now rewrite Hrows.
  - unfold cell_at, sheetData. rewrite Hpre. simpl.
    apply scan_rows_snoc_clean. unfold clean. simpl.
    rewrite decide_False; [reflexivity|]. intros [= E]. now apply Hne.
Qed.

(** X2: a [setCell] on a normalized sheet completes and changes no stored
    field of any cell with another address: the first cell of every other
    name is the same record as before. *)
Theorem setCell_keeps_other_cells (sh : Sheet) (a a2 : string) (v : scalar)
    (k : kind) :
  normalized sh = true -> letters_then_digits a -> a2 <> a ->
  exists sh',
    setCell sh a v k = (sh', Ok ()) /\
    cell_at sh' a2 = cell_at sh a2.
Proof.
  intros Hn Ha Hne. apply cell_name_matches_iff in Ha.
  destruct (setCell_result sh a v k Hn Ha)
    as (sh2 & pre & row & post & cells & ci & c & texts & f & st' & sh'
        & _ & _ & _ & Hrun & _).
  exists sh'. split; [exact Hrun|].
  now apply (other_cells_kept sh sh' a a2 v k).
Qed.

Lemma setCell_keeps_other_cells_sample :
  exists sh',
    setCell parsed_sheet "A1" (SStr "bar") KString = (sh', Ok ()) /\
    cell_at sh' "A2" = cell_at parsed_sheet "A2".
Proof.
  apply (setCell_keeps_other_cells parsed_sheet "A1" "A2").
  - reflexivity.
  - apply cell_name_matches_iff. reflexivity.
  - discriminate.
Defined.

(** * A string write is an upsert of the reading *)

(** X3: on a normalized sheet [setCell(A, V)] for a string [V] runs
    [_getSharedString] on the table with, as old value, what [getCell(A)]
    returns before the write (the empty string for null); the cell then
    holds the returned offset and the shared-string marker. *)
Theorem string_write_is_upsert (sh : Sheet) (a V : string) :
  normalized sh = true -> letters_then_digits a ->
  exists (r : option scalar) (st' : StringTable) (idx : nat) (sh' : Sheet)
         (c' : Cell),
    getCell sh a = Ok r /\
    _getSharedString (_stringTable sh) (or_empty r) V = (st', Ok idx) /\
    setCell sh a (SStr V) KString = (sh', Ok ()) /\
    _stringTable sh' = st' /\
    cell_at sh' a = Ok (Some c') /\
    c_v c' = Some (SNum (Z.of_nat idx)) /\
    c_t c' = Some "s".
Proof.
  intros Hn Ha. apply cell_name_matches_iff in Ha.
  destruct (setCell_result sh a (SStr V) KString Hn Ha)
    as (sh2 & pre & row & post & cells & ci & c & texts & f & st' & sh'
        & _ & _ & Hget & Hrun & _ & Hst' & Hat & _ & (idx & -> & Hup) & _).
  exists (or_null (array_get texts (c_v c))), st', idx, sh', (put_string idx c).
  repeat split; auto.
Qed.

Lemma string_write_is_upsert_sample :
  exists (r : option scalar) (st' : StringTable) (idx : nat) (sh' : Sheet)
         (c' : Cell),
    getCell parsed_sheet "B1" = Ok r /\
    _getSharedString (_stringTable parsed_sheet) (or_empty r) "bar" =
      (st', Ok idx) /\
    setCell parsed_sheet "B1" (SStr "bar") KString = (sh', Ok ()) /\
    _stringTable sh' = st' /\
    cell_at sh' "B1" = Ok (Some c') /\
    c_v c' = Some (SNum (Z.of_nat idx)) /\
    c_t c' = Some "s".
Proof.
  apply (string_write_is_upsert parsed_sheet "B1" "bar").
  - reflexivity.
  - apply cell_name_matches_iff. reflexivity.
Defined.

Lemma array_get_elem (texts : list (option scalar)) (key : option scalar)
    (v : scalar) :
  array_get texts key = Some v -> key <> Some (SStr "length") ->
  exists i, texts !! i = Some (Some v).
Proof.
  unfold array_get. destruct key as [[n|s]|]; intros H Hkey; [| |discriminate].
  - destruct (0 <=? n)%Z; [|discriminate].
    exists (Z.to_nat n).
    destruct (texts !! Z.to_nat n) as [[x|]|]; simpl in H; congruence.
  - destruct (String.eqb s "length") eqn:E.
    { apply String.eqb_eq in E. subst. congruence. }
    destruct (array_index s) as [i|]; [|discriminate].
    exists i. destruct (texts !! i) as [[x|]|]; simpl in H; congruence.
Qed.

Lemma or_null_Some (x : option scalar) (v : scalar) :
  or_null x = Some v -> x = Some v /\ or_empty (or_null x) = v.
Proof.
  unfold or_null, or_empty. destruct x as [w|]; [|discriminate].
  destruct (truthy w) eqn:E; [|discriminate].
  intros [= ->]. now rewrite E.
Qed.

Lemma offset_not_length (key : option scalar) :
  is_offset key = true -> key <> Some (SStr "length").
Proof. intros H E. rewrite E in H. discriminate. Qed.

(** X4: on a normalized sheet, rewriting a cell that reads a text never
    grows the table.  When the literal of the cell is an offset (a number or
    the decimal text of an index) and [getCell(A)] returns [old],
    [setCell(A, V)] for a string [V] overwrites the first entry of the table
    whose text is [old] and appends nothing. *)
Theorem rewrite_keeps_table_length (sh : Sheet) (a V : string) (c : Cell)
    (old : scalar) (si : list Si) :
  normalized sh = true -> letters_then_digits a ->
  cell_at sh a = Ok (Some c) -> is_offset (c_v c) = true ->
  getCell sh a = Ok (Some old) ->
  sst_si (_stringTable sh) = Many si ->
  exists (sh' : Sheet) (si' : list Si) (k : nat),
    setCell sh a (SStr V) KString = (sh', Ok ()) /\
    sst_si (_stringTable sh') = Many si' /\
    length si' = length si /\
    (si_t <$> si) !! k = Some (Some old) /\
    (forall j, j < k -> (si_t <$> si) !! j <> Some (Some old)) /\
    si_t <$> si' = <[k := Some (SStr V)]> (si_t <$> si).
Proof.
  intros Hn Ha Hat Hkey Hget Hsi. apply cell_name_matches_iff in Ha.
  apply offset_not_length in Hkey.
  destruct (setCell_result sh a (SStr V) KString Hn Ha)
    as (sh2 & pre & row & post & cells & ci & c0 & texts & f & st' & sh'
        & _ & Htexts & Hget0 & Hrun & _ & Hst' & _ & _ & (idx & -> & Hup)
        & Hcase).
  assert (c0 = c) as ->.
  { destruct Hcase as [(_ & E) | (E & _)]; congruence. }
  assert (texts = si_t <$> si) as ->.
  { unfold si_texts in Htexts. rewrite Hsi in Htexts. now injection Htexts. }
  rewrite Hget in Hget0. injection Hget0 as Hold. symmetry in Hold.
  apply or_null_Some in Hold as [Hold Hcur]. rewrite Hcur in Hup.
  destruct (array_get_elem _ _ _ Hold Hkey) as [i Hi].
  destruct (first_occurrence (si_t <$> si) old (ex_intro _ i Hi))
    as (k & Hfind & Hk & Hfirst).
  assert (Hst : _stringTable sh =
                mkStringTable (Many si) (sst_rest (_stringTable sh)))
    by (destruct (_stringTable sh); simpl in *; now subst).
  rewrite Hst, (getSharedString_hit si _ old V k _ Hfind) in Hup.
  injection Hup as <- <-.
  eexists sh', _, k. split; [exact Hrun|]. rewrite Hst'. simpl.
  split; [reflexivity|]. split; [apply length_alter|].
  split; [exact Hk|]. split; [exact Hfirst|].
  now rewrite alter_text_fmap, alter_const_insert.
Qed.

Lemma rewrite_keeps_table_length_sample :
  exists (sh' : Sheet) (si' : list Si) (k : nat),
    setCell parsed_sheet "B1" (SStr "bar") KString = (sh', Ok ()) /\
    sst_si (_stringTable sh') = Many si' /\
    length si' = 2 /\
    [Some (SStr "x"); Some (SStr "foo")] !! k = Some (Some (SStr "x")) /\
    (forall j, j < k ->
       [Some (SStr "x"); Some (SStr "foo")] !! j <> Some (Some (SStr "x"))) /\
    si_t <$> si' = <[k := Some (SStr "bar")]> [Some (SStr "x"); Some (SStr "foo")].
Proof.
  apply (rewrite_keeps_table_length parsed_sheet "B1" "bar"
           (parsed_cell "B1" 0) (SStr "x")
           [mkSi (Some (SStr "x")) []; mkSi (Some (SStr "foo")) []]).
  - reflexivity.
  - apply cell_name_matches_iff. reflexivity.
  - reflexivity.
  - reflexivity.
  - reflexivity.
  - reflexivity.
Defined.

(** * Number and formula writes *)

Lemma parseInt_toString (n : Z) : (0 <= n)%Z -> parseInt (toString n) = n.
Proof.
  destruct n as [|p|p]; intros Hn; [reflexivity| |lia].
  rewrite toString_pos. unfold parseInt. rewrite NilEmpty.usu.
  exact (DecimalZ.of_to (Z.pos p)).
Qed.

(** X5: on a normalized sheet [setCell(A, N)] for a safe integer [N]
    stores the decimal text of [N], a string, as the cell's literal, leaves
    no type marker and does not touch the shared strings. *)
Theorem number_write_literal (sh : Sheet) (a : string) (n : Z) :
  normalized sh = true -> letters_then_digits a ->
  isSafeInteger n = true ->
  exists (sh' : Sheet) (c' : Cell),
    setCell sh a (SNum n) KString = (sh', Ok ()) /\
    cell_at sh' a = Ok (Some c') /\
    c_v c' = Some (SStr (toString n)) /\
    c_t c' = None /\
    _stringTable sh' = _stringTable sh.
Proof.
  intros Hn Ha _. apply cell_name_matches_iff in Ha.
  destruct (setCell_result sh a (SNum n) KString Hn Ha)
    as (sh2 & pre & row & post & cells & ci & c & texts & f & st' & sh'
        & _ & _ & _ & Hrun & _ & Hst' & Hat & _ & (-> & ->) & _).
  exists sh', (put_number n c). repeat split; auto.
Qed.

Lemma number_write_literal_sample :
  exists (sh' : Sheet) (c' : Cell),
    setCell parsed_sheet "A1" (SNum 42) KString = (sh', Ok ()) /\
    cell_at sh' "A1" = Ok (Some c') /\
    c_v c' = Some (SStr "42") /\
    c_t c' = None /\
    _stringTable sh' = _stringTable parsed_sheet.
Proof.
  apply (number_write_literal parsed_sheet "A1" 42).
  - reflexivity.
  - apply cell_name_matches_iff. reflexivity.
  - reflexivity.
Defined.

(** X6: on a normalized sheet a formula write stores the value as the
    cell's formula, removes the literal and the type marker, and does not
    touch the shared strings (the entry the cell pointed to stays in the
    table). *)
Theorem formula_write_fields (sh : Sheet) (a : string) (v : scalar) :
  normalized sh = true -> letters_then_digits a ->
  exists (sh' : Sheet) (c' : Cell),
    setCell sh a v KFormula = (sh', Ok ()) /\
    cell_at sh' a = Ok (Some c') /\
    c_f c' = Some v /\ c_v c' = None /\ c_t c' = None /\
    _stringTable sh' = _stringTable sh.
Proof.
  intros Hn Ha. apply cell_name_matches_iff in Ha.
  destruct (setCell_result sh a v KFormula Hn Ha)
    as (sh2 & pre & row & post & cells & ci & c & texts & f & st' & sh'
        & _ & _ & _ & Hrun & _ & Hst' & Hat & _ & (-> & ->) & _).
  exists sh', (put_formula v c). repeat split; auto.
Qed.

Lemma formula_write_fields_sample :
  exists (sh' : Sheet) (c' : Cell),
    setCell parsed_sheet "A1" (SStr "=B1") KFormula = (sh', Ok ()) /\
    cell_at sh' "A1" = Ok (Some c') /\
    c_f c' = Some (SStr "=B1") /\ c_v c' = None /\ c_t c' = None /\
    _stringTable sh' = _stringTable parsed_sheet.
Proof.
  apply (formula_write_fields parsed_sheet "A1" (SStr "=B1")).
  - reflexivity.
  - apply cell_name_matches_iff. reflexivity.
Defined.

(** * The shape of the tree after a write *)

(** X7: writing to a cell that exists changes no row: the sheet keeps its
    rows in order with their identifiers and other members, every row keeps
    its number of cells, and the cell keeps its address and its other
    members (style and the like). *)
Theorem existing_cell_keeps_structure (sh : Sheet) (a : string) (v : scalar)
    (k : kind) (c : Cell) :
  normalized sh = true -> letters_then_digits a ->
  cell_at sh a = Ok (Some c) ->
  exists (sh' : Sheet) (c' : Cell),
    setCell sh a v k = (sh', Ok ()) /\
    r_r <$> rows_of sh' = r_r <$> rows_of sh /\
    r_rest <$> rows_of sh' = r_rest <$> rows_of sh /\
    (fun r => length (cells_of r)) <$> rows_of sh' =
      (fun r => length (cells_of r)) <$> rows_of sh /\
    cell_at sh' a = Ok (Some c') /\
    c_r c' = c_r c /\ c_rest c' = c_rest c.
Proof.
  intros Hn Ha Hat. apply cell_name_matches_iff in Ha.
  destruct (setCell_result sh a v k Hn Ha)
    as (sh2 & pre & row & post & cells & ci & c0 & texts & f & st' & sh'
        & Hloc & _ & _ & Hrun & Hrows' & _ & Hat' & Hf & _ & Hcase).
  destruct Hcase as [(-> & E) | (E & _)]; [|congruence].
  assert (c0 = c) as -> by congruence.
  destruct Hloc as (Hrows & _ & Hcells & _).
  assert (R' : rows_of sh' = pre ++ with_cells row (alter f ci cells) :: post)
    by (unfold rows_of; now rewrite Hrows').
  assert (R : rows_of sh = pre ++ row :: post)
    by (unfold rows_of; now rewrite Hrows).
  exists sh', (f c). split; [exact Hrun|].
  rewrite R', R, !fmap_app, !fmap_cons.
  repeat split; try apply Hf; auto.
  do 2 f_equal. unfold cells_of. simpl. rewrite Hcells.
  now rewrite !length_fmap, length_alter.
Qed.

Lemma existing_cell_keeps_structure_sample :
  exists (sh' : Sheet) (c' : Cell),
    setCell parsed_sheet "B2" (SStr "bar") KString = (sh', Ok ()) /\
    r_r <$> rows_of sh' = [Some (SStr "1"); Some (SStr "2")] /\
    r_rest <$> rows_of sh' = [[]; []] /\
    (fun r => length (cells_of r)) <$> rows_of sh' = [2; 2] /\
    cell_at sh' "B2" = Ok (Some c') /\
    c_r c' = Some "B2" /\ c_rest c' = [].
Proof.
  apply (existing_cell_keeps_structure parsed_sheet "B2" (SStr "bar") KString
           (parsed_cell "B2" 0)).
  - reflexivity.
  - apply cell_name_matches_iff. reflexivity.
  - reflexivity.
Defined.

(** X8: on a normalized sheet, writing to an address no cell has appends
    exactly one row at the end of the row sequence, after all rows as they
    were; the row holds the new cell alone and carries the number read from
    the first digit run of the address, that run denoting a safe integer. *)
Theorem absent_cell_row_appended (sh : Sheet) (a : string) (v : scalar)
    (k : kind) (rows0 : list Row) :
  normalized sh = true -> letters_then_digits a ->
  isSafeInteger (parseInt (first_digits a)) = true ->
  sheetData_row (_data sh) = Many rows0 ->
  cell_at sh a = Ok None ->
  exists (sh' : Sheet) (c' : Cell),
    setCell sh a v k = (sh', Ok ()) /\
    sheetData_row (_data sh') =
      Many (rows0 ++
            [mkRow (Some (SNum (parseInt (first_digits a)))) (Many [c']) []]) /\
    c_r c' = Some a /\ c_rest c' = [] /\
    cell_at sh' a = Ok (Some c').
Proof.
  intros Hn Ha _ Hrows Hat. apply cell_name_matches_iff in Ha.
  destruct (setCell_result sh a v k Hn Ha)
    as (sh2 & pre & row & post & cells & ci & c & texts & f & st' & sh'
        & Hloc & _ & _ & Hrun & Hrows' & _ & Hat' & Hf & _ & Hcase).
  destruct Hcase as [(_ & E) | (_ & Hpre & -> & -> & ->)]; [congruence|].
  assert (pre = rows0) as -> by congruence.
  destruct Hloc as (_ & _ & Hcells & Hfind). simpl in Hcells.
  injection Hcells as <-. simpl in Hfind.
  rewrite decide_True in Hfind by reflexivity. injection Hfind as <-.
  exists sh', (f (new_cell a)). split; [exact Hrun|].
  split; [exact Hrows'|]. repeat split; try apply Hf; auto.
Qed.

Lemma absent_cell_row_appended_sample :
  exists (sh' : Sheet) (c' : Cell),
    setCell parsed_sheet "C7" (SStr "new") KString = (sh', Ok ()) /\
    sheetData_row (_data sh') =
      Many (rows_of parsed_sheet ++
            [mkRow (Some (SNum (parseInt (first_digits "C7")))) (Many [c']) []]) /\
    c_r c' = Some "C7" /\ c_rest c' = [] /\
    cell_at sh' "C7" = Ok (Some c').
Proof.
  apply (absent_cell_row_appended parsed_sheet "C7" (SStr "new") KString
           (rows_of parsed_sheet)).
  - reflexivity.
  - apply cell_name_matches_iff. reflexivity.
  - reflexivity.
  - reflexivity.
  - reflexivity.
Defined.

(** * [getCell] on rows whose [c] is a bare cell *)

Lemma scan_cells_total (a : string) (cells : list (option Cell)) :
  None ∉ cells ->
  exists res,
    scan_cells a cells = Ok res /\
    (forall c, res = Some c -> c_r c = Some a /\ Some c ∈ cells) /\
    (res = None -> forall c, Some c ∈ cells -> c_r c <> Some a).
Proof.
  induction cells as [|[x|] cells IH]; intros Hnone; simpl.
  - exists None. split; [reflexivity|]. split; [discriminate|].
    intros _ c Hc. inversion Hc.
  - destruct (decide (c_r x = Some a)) as [Hx|Hx].
    + exists (Some x). split; [reflexivity|]. split; [|discriminate].
      intros c Hc. injection Hc as <-. split; [exact Hx | left].
    + destruct IH as (res & Hres & Hsome & Hnone').
      { intros H. apply Hnone. now right. }
      exists res. split; [exact Hres|]. split.
      * intros c Hc. destruct (Hsome c Hc). split; [assumption | now right].
      * intros E c Hc. apply elem_of_cons in Hc as [Hc|Hc].
        -- injection Hc as ->. exact Hx.
        -- now apply Hnone'.
  - exfalso. apply Hnone. left.
Qed.

Lemma cells_of_no_undefined (row : Row) : r_c row <> Absent -> None ∉ cells_of row.
Proof.
  unfold cells_of. destruct (r_c row) as [|c|l]; intros H Hin.
  - congruence.
  - apply list_elem_of_singleton in Hin. discriminate.
  - apply list_elem_of_fmap in Hin as (x & E & _). discriminate.
Qed.

Lemma scan_rows_total (a : string) (rows : list Row) :
  Forall (fun row => r_c row <> Absent) rows ->
  exists res,
    scan_rows a rows = Ok res /\
    (forall c, res = Some c ->
       c_r c = Some a /\ exists row, row ∈ rows /\ Some c ∈ cells_of row) /\
    (res = None ->
       forall row c, row ∈ rows -> Some c ∈ cells_of row -> c_r c <> Some a).
Proof.
  intros H. induction H as [|row rows Hrow _ IH]; simpl.
  - exists None. split; [reflexivity|]. split; [discriminate|].
    intros _ row c Hin. inversion Hin.
  - destruct (scan_cells_total a (cells_of row) (cells_of_no_undefined _ Hrow))
      as ([c|] & -> & Hsome & Hnone).
    + exists (Some c). split; [reflexivity|]. split; [|discriminate].
      intros c0 Hc0. injection Hc0 as <-.
      destruct (Hsome c eq_refl) as [Hname Hin].
      split; [exact Hname|]. exists row. split; [left | exact Hin].
    + destruct IH as (res & -> & Hsome' & Hnone').
      exists res. split; [reflexivity|]. split.
      * intros c Hc. destruct (Hsome' c Hc) as (Hname & r & Hr & Hin).
        split; [exact Hname|]. exists r. split; [now right | exact Hin].
      * intros E r c Hr Hin. apply elem_of_cons in Hr as [->|Hr].
        -- now apply (Hnone eq_refl).
        -- now apply (Hnone' E r c).
Qed.

(** X9: [getCell] needs the rows and the shared strings to be arrays, and
    every row to have a [c]; a row whose [c] is one bare cell is read like
    any other.  On such a sheet it completes for every address of letters
    then digits, what it returns is never an empty string or a zero, and it
    is null when no cell has the address. *)
Theorem getCell_tolerates_bare_cells (sh : Sheet) (a : string)
    (rows : list Row) :
  letters_then_digits a ->
  is_many (sst_si (_stringTable sh)) = true ->
  sheetData_row (_data sh) = Many rows ->
  Forall (fun row => r_c row <> Absent) rows ->
  exists r,
    getCell sh a = Ok r /\
    (forall v, r = Some v -> truthy v = true) /\
    ((forall row c, row ∈ rows -> Some c ∈ cells_of row -> c_r c <> Some a) ->
     r = None).
Proof.
  intros Ha Hsi Hrows Hall. apply cell_name_matches_iff in Ha.
  assert (Htexts : exists texts, si_texts (_stringTable sh) = Ok texts).
  { unfold si_texts. destruct (sst_si (_stringTable sh)); try discriminate. eauto. }
  destruct Htexts as [texts Htexts].
  destruct (scan_rows_total a rows Hall) as (res & Hscan & Hsome & _).
  rewrite (getCell_cell_at sh a texts Ha Htexts).
  unfold cell_at, sheetData. rewrite Hrows. simpl. rewrite Hscan.
  destruct res as [c|].
  - eexists. split; [reflexivity|]. split.
    + intros v Hv. unfold or_null in Hv.
      destruct (array_get texts (c_v c)) as [w|]; [|discriminate].
      destruct (truthy w) eqn:E; [|discriminate]. now injection Hv as <-.
    + intros Hno. exfalso.
      destruct (Hsome c eq_refl) as (Hname & row & Hrow & Hin).
      exact (Hno row c Hrow Hin Hname).
  - exists None. repeat split; auto. discriminate.
Qed.

Lemma getCell_tolerates_bare_cells_sample :
  exists r,
    getCell one_cell_rows_sheet "A2" = Ok r /\
    (forall v, r = Some v -> truthy v = true) /\
    ((forall row c, row ∈ rows_of one_cell_rows_sheet ->
                    Some c ∈ cells_of row -> c_r c <> Some "A2") ->
     r = None).
Proof.
  apply (getCell_tolerates_bare_cells one_cell_rows_sheet "A2").
  - apply cell_name_matches_iff. reflexivity.
  - reflexivity.
  - reflexivity.
  - repeat constructor; discriminate.
Defined.

(** * The row number of an address *)

Lemma upper_not_digit (a : ascii) : is_upper a = true -> is_digit a = false.
Proof.
  unfold is_digit, is_upper. intros H.
  apply andb_true_iff in H as [H _]. apply Nat.leb_le in H.
  apply andb_false_iff. right. apply Nat.leb_gt. lia.
Qed.

Lemma take_while_all (p : ascii -> bool) (s : string) :
  string_forall p s -> take_while p s = s.
Proof.
  induction s as [|x s IH]; simpl; [reflexivity|].
  intros [-> H]. now rewrite IH.
Qed.

Lemma parseInt_nonneg (digits : string) : (0 <= parseInt digits)%Z.
Proof.
  unfold parseInt. destruct (NilEmpty.uint_of_string digits) as [d|]; [|lia].
  unfold Z.of_uint. apply N2Z.is_nonneg.
Qed.

(** X10: for an address made of letters [cols] and one or more digits
    [row], the digit run [setCell] takes with [match(/\d+/g)[0]] is [row],
    so, [row] denoting a safe integer, the identifier of a row it creates is
    the number [row] denotes, never negative. *)
Theorem new_row_identifier (cols row : string) :
  string_forall is_upper cols -> string_forall is_digit row ->
  row <> EmptyString -> isSafeInteger (parseInt row) = true ->
  first_digits (String.append cols row) = row /\
  r_r (new_row (String.append cols row)) = Some (SNum (parseInt row)) /\
  (0 <= parseInt row)%Z.
Proof.
  intros Hup Hdig _ _.
  assert (E : first_digits (String.append cols row) = row).
  { unfold first_digits.
    assert (Hskip : skip_while (fun x => negb (is_digit x))
                      (String.append cols row) = row).
    { induction cols as [|x cols IH].
      - rewrite append_nil. destruct row as [|d row]; [reflexivity|].
        destruct Hdig as [Hd _]. simpl. now rewrite Hd.
      - destruct Hup as [Hx Hup]. rewrite append_cons. simpl.
        rewrite (upper_not_digit x Hx). simpl. now apply IH. }
    rewrite Hskip. now apply take_while_all. }
  split; [exact E|]. split; [|apply parseInt_nonneg].
  unfold new_row. simpl. now rewrite E.
Qed.

Lemma new_row_identifier_sample :
  first_digits (String.append "AB" "007") = "007" /\
  r_r (new_row (String.append "AB" "007")) = Some (SNum (parseInt "007")) /\
  (0 <= parseInt "007")%Z.
Proof.
  apply (new_row_identifier "AB" "007"); simpl; repeat split;
    reflexivity || discriminate.
Defined.

Example leading_zeros_dropped : r_r (new_row "AB007") = Some (SNum 7).
Proof. reflexivity. Qed.

(** * The entries object and the sheet Map *)

Lemma obj_get_elem (o : entries) (key : string) :
  key ∈ fst <$> o <-> exists v, obj_get o key = Some v.
Proof.
  induction o as [|[k w] o IH]; simpl.
  - split; [intros H; inversion H | intros [v H]; discriminate].
  - destruct (String.eqb k key) eqn:E.
    + apply String.eqb_eq in E. subst. split; [eauto | intros _; left].
    + apply String.eqb_neq in E. rewrite elem_of_cons, IH.
      split; [intros [->|H]; [congruence | exact H] | now right].
Qed.

Lemma obj_set_same (o : entries) (key : string) (v : bytes) :
  obj_get o key = Some v -> obj_set o key v = o.
Proof.
  induction o as [|[k w] o IH]; simpl; [discriminate|].
  destruct (String.eqb k key) eqn:E.
  - now intros [= ->].
  - intros H. now rewrite IH.
Qed.

Lemma obj_set_keys (o : entries) (key : string) (v : bytes) :
  fst <$> obj_set o key v =
  if decide (key ∈ fst <$> o) then fst <$> o else (fst <$> o) ++ [key].
Proof.
  induction o as [|[k w] o IH]; [reflexivity|].
  simpl obj_set. destruct (String.eqb k key) eqn:E.
  - apply String.eqb_eq in E. subst. rewrite !fmap_cons. simpl.
    rewrite decide_True by left. reflexivity.
  - apply String.eqb_neq in E. rewrite !fmap_cons, IH. simpl.
    destruct (decide (key ∈ fst <$> o)) as [Hin|Hin].
    + rewrite decide_True by now right. reflexivity.
    + rewrite decide_False; [reflexivity|].
      intros H. apply elem_of_cons in H as [->|H]; [now apply E | now apply Hin].
Qed.

Lemma Map_get_set (m : sheet_map) (i j : nat) (ws : Worksheet) :
  Map_get (Map_set m i ws) j = if Nat.eqb i j then Some ws else Map_get m j.
Proof.
  induction m as [|[x w] m IH]; simpl.
  - reflexivity.
  - destruct (Nat.eqb x i) eqn:E; simpl.
    + apply Nat.eqb_eq in E. subst x. now destruct (Nat.eqb i j).
    + rewrite IH. destruct (Nat.eqb x j) eqn:E'; [|reflexivity].
      apply Nat.eqb_eq in E'. subst x. now rewrite Nat.eqb_sym, E.
Qed.

Lemma Map_get_keys (m : sheet_map) (i : nat) :
  i ∈ fst <$> m <-> exists ws, Map_get m i = Some ws.
Proof.
  induction m as [|[x w] m IH]; simpl.
  - split; [intros H; inversion H | intros [v H]; discriminate].
  - destruct (Nat.eqb x i) eqn:E.
    + apply Nat.eqb_eq in E. subst. split; [eauto | intros _; left].
    + apply Nat.eqb_neq in E. rewrite elem_of_cons, IH.
      split; [intros [->|H]; [congruence | exact H] | now right].
Qed.

Lemma elem_Map_get (m : sheet_map) (i : nat) (ws : Worksheet) :
  NoDup (fst <$> m) -> (i, ws) ∈ m -> Map_get m i = Some ws.
Proof.
  induction m as [|[x w] m IH]; intros Hnd Hin; [inversion Hin|].
  rewrite fmap_cons in Hnd. apply NoDup_cons in Hnd as [Hx Hnd]. simpl in *.
  apply elem_of_cons in Hin as [Hin|Hin].
  - injection Hin as -> ->. now rewrite Nat.eqb_refl.
  - destruct (Nat.eqb x i) eqn:E; [|now apply IH].
    apply Nat.eqb_eq in E. subst x. exfalso. apply Hx.
    apply list_elem_of_fmap. now exists (i, ws).
Qed.

(** The sheet a view works on keeps its index through [setCell]. *)
Lemma setCell_index (sh : Sheet) (a : string) (v : scalar) (k : kind) :
  _index (fst (setCell sh a v k)) = _index sh.
Proof.
  assert (Hup : forall s ri ci f, _index (update_cell s ri ci f) = _index s).
  { intros s ri ci f. unfold update_cell.
    now destruct (sheetData_row (_data s)). }
  unfold setCell.
  destruct (negb (cell_name_matches a)); [reflexivity|].
  destruct (sheetData (_data sh)) as [rows0|]; [|reflexivity].
  destruct (find_row a rows0) as [[[i row]|]|]; [| |reflexivity].
  - destruct (r_c row) as [| |cells0]; try reflexivity.
    destruct (list_find (named a) cells0) as [[j x]|].
    + destruct (getCell sh a); [|reflexivity].
      destruct k; [destruct v|]; simpl; rewrite ?Hup; try reflexivity.
      destruct (_getSharedString _ _ _) as [st [idx|e]]; simpl;
        rewrite ?Hup; reflexivity.
    + destruct (sheetData_row (_data sh)) as [| |rows1] eqn:E;
        (destruct (getCell _ a); [|reflexivity]);
        (destruct k; [destruct v|]; simpl; rewrite ?Hup; try reflexivity);
        destruct (_getSharedString _ _ _) as [st [idx|e]]; simpl;
        rewrite ?Hup; reflexivity.
  - simpl.
    destruct (getCell _ a); [|reflexivity].
    destruct k; [destruct v|]; simpl; rewrite ?Hup; try reflexivity.
    destruct (_getSharedString _ _ _) as [st [idx|e]]; simpl;
      rewrite ?Hup; reflexivity.
Qed.

(** * [endsWith] *)

Lemma ends_with_nil (suffix : string) :
  ends_with suffix EmptyString = String.eqb EmptyString suffix.
Proof. simpl. apply orb_false_r. Qed.

Lemma ends_with_cons (suffix : string) (x : ascii) (s : string) :
  ends_with suffix (String x s) =
  String.eqb (String x s) suffix || ends_with suffix s.
Proof. reflexivity. Qed.

Lemma ends_with_iff (suffix s : string) :
  ends_with suffix s = true <-> exists stem, s = String.append stem suffix.
Proof.
  split.
  - induction s as [|x s IH].
    + rewrite ends_with_nil. intros E. apply String.eqb_eq in E.
      exists EmptyString. now rewrite append_nil.
    + rewrite ends_with_cons. intros H. apply orb_true_iff in H as [E|H].
      * apply String.eqb_eq in E. exists EmptyString. now rewrite append_nil.
      * destruct (IH H) as [stem ->]. exists (String x stem).
        now rewrite append_cons.
  - intros [stem ->]. induction stem as [|x stem IH].
    + rewrite append_nil. destruct suffix as [|y suffix].
      * reflexivity.
      * rewrite ends_with_cons, String.eqb_refl. reflexivity.
    + rewrite append_cons, ends_with_cons, IH. apply orb_true_r.
Qed.

(** * Loading *)

(** The indexes the loop of [load] does not write keep what the Map had,
    however the loop ends: those before [i0], those past the keys, and the
    excluded ones. *)
Lemma load_sheets_other (parse_sheet : string -> option Worksheet)
    (decode : bytes -> option string) (file : entries) (exclude : list nat)
    (keys : list string) (i0 : nat) (m : sheet_map) (j : nat) :
  j < i0 \/ i0 + length keys <= j \/ existsb (Nat.eqb j) exclude = true ->
  Map_get (fst (load_sheets parse_sheet decode file exclude keys i0 m)) j =
    Map_get m j.
Proof.
  revert i0 m. induction keys as [|key keys IH]; intros i0 m Hj; [reflexivity|].
  simpl. simpl length in Hj.
  destruct (existsb (Nat.eqb i0) exclude) eqn:Hex.
  - apply IH. destruct (Nat.eq_dec j i0) as [->|Hne]; [auto|].
    destruct Hj as [Hj|[Hj|Hj]]; [left|right; left|right; right]; auto; lia.
  - destruct (obj_get file key) as [b|]; [|reflexivity].
    destruct (read_sheet parse_sheet decode b) as [parsed|]; [|reflexivity].
    assert (Hne : j <> i0).
    { intros ->. destruct Hj as [Hj|[Hj|Hj]]; try lia. congruence. }
    rewrite IH.
    + rewrite Map_get_set.
      replace (Nat.eqb i0 j) with false by (symmetry; apply Nat.eqb_neq; lia).
      reflexivity.
    + destruct Hj as [Hj|[Hj|Hj]]; [left|right; left|right; right]; auto; lia.
Qed.

(** When the loop completes, every position [i0 .. i0 + n) that is not
    excluded holds the tree read from the entry its key names. *)
Lemma load_sheets_get (parse_sheet : string -> option Worksheet)
    (decode : bytes -> option string) (file : entries) (exclude : list nat)
    (keys : list string) (i0 : nat) (m m' : sheet_map) :
  load_sheets parse_sheet decode file exclude keys i0 m = (m', None) ->
  forall j,
    i0 <= j < i0 + length keys -> existsb (Nat.eqb j) exclude = false ->
    exists key b ws,
      keys !! (j - i0) = Some key /\ obj_get file key = Some b /\
      read_sheet parse_sheet decode b = Some ws /\ Map_get m' j = Some ws.
Proof.
  revert i0 m. induction keys as [|key keys IH]; intros i0 m H j Hj Hnot.
  - simpl in Hj. lia.
  - simpl in H. simpl length in Hj.
    destruct (Nat.eq_dec j i0) as [->|Hne].
    + rewrite Hnot in H.
      destruct (obj_get file key) as [b|] eqn:Hb; [|discriminate].
      destruct (read_sheet parse_sheet decode b) as [parsed|] eqn:Hp;
        [|discriminate].
      exists key, b, parsed. rewrite Nat.sub_diag.
      split; [reflexivity|]. split; [exact Hb|]. split; [exact Hp|].
      pose proof (load_sheets_other parse_sheet decode file exclude keys
                    (S i0) (Map_set m i0 parsed) i0 (or_introl (Nat.lt_succ_diag_r i0)))
        as Hout.
      rewrite H in Hout. simpl in Hout.
      now rewrite Hout, Map_get_set, Nat.eqb_refl.
    + replace (j - i0) with (S (j - S i0)) by lia.
      destruct (existsb (Nat.eqb i0) exclude).
      * apply (IH _ _ H); [lia | exact Hnot].
      * destruct (obj_get file key) as [b|]; [|discriminate].
        destruct (read_sheet parse_sheet decode b) as [parsed|];
          [|discriminate].
        apply (IH _ _ H); [lia | exact Hnot].
Qed.

(** When the loop throws, it is on the first entry it does not skip that
    cannot be read; a key taken from the archive is always found. *)
Lemma load_sheets_error (parse_sheet : string -> option Worksheet)
    (decode : bytes -> option string) (file : entries) (exclude : list nat)
    (keys : list string) (i0 : nat) (m m' : sheet_map) (e : load_error) :
  (forall key, key ∈ keys -> key ∈ fst <$> file) ->
  load_sheets parse_sheet decode file exclude keys i0 m = (m', Some e) ->
  exists j key b,
    e = Unreadable key /\ keys !! j = Some key /\
    existsb (Nat.eqb (i0 + j)) exclude = false /\
    obj_get file key = Some b /\ read_sheet parse_sheet decode b = None.
Proof.
  revert i0 m. induction keys as [|key keys IH]; intros i0 m Hkeys H;
    [discriminate|].
  assert (Hrest : forall k, k ∈ keys -> k ∈ fst <$> file)
    by (intros k Hk; apply Hkeys; now right).
  simpl in H. destruct (existsb (Nat.eqb i0) exclude) eqn:Hex.
  - destruct (IH _ _ Hrest H) as (j & k & b & He & Hk & Hnot & Hb & Hr).
    exists (S j), k, b. repeat split; auto.
    now replace (i0 + S j) with (S i0 + j) by lia.
  - destruct (proj1 (obj_get_elem file key) (Hkeys key ltac:(left))) as [b Hb].
    rewrite Hb in H.
    destruct (read_sheet parse_sheet decode b) as [parsed|] eqn:Hp.
    + destruct (IH _ _ Hrest H) as (j & k & b' & He & Hk & Hnot & Hb' & Hr).
      exists (S j), k, b'. repeat split; auto.
      now replace (i0 + S j) with (S i0 + j) by lia.
    + injection H as _ <-. exists 0, key, b.
      rewrite Nat.add_0_r. repeat split; auto.
Qed.

Lemma sheet_keys_in_file (file : entries) (key : string) :
  key ∈ sheet_keys file -> key ∈ fst <$> file.
Proof. unfold sheet_keys. intros H. now apply list_elem_of_filter in H. Qed.

Section LifecycleFacts.
Variable parse_sheet : string -> option Worksheet.
Variable parse_strings : string -> option StringTable.
Variable decode : bytes -> option string.
Variable unzipSync : bytes -> option entries.

(** X11: [load] reports a missing file first, whatever its name, and a
    name that does not end in ".xlsx" (compared exactly, case included)
    next; these two rejections depend on nothing else. *)
Theorem load_path_rejections (path : string) (disk : option bytes)
    (exclude : list nat) :
  (forall p,
     load_path parse_sheet parse_strings decode unzipSync path disk exclude =
       inr (DoesNotExist p) <->
     p = path /\ disk = None) /\
  (forall p,
     load_path parse_sheet parse_strings decode unzipSync path disk exclude =
       inr (NotAnExcelFile p) <->
     p = path /\ disk <> None /\
     ~ exists stem, path = String.append stem ".xlsx").
Proof.
  unfold load_path. split; intros p.
  - destruct disk as [content|].
    + split; [|intros [_ H]; discriminate].
      destruct (negb (ends_with ".xlsx" path)); [discriminate|].
      destruct (unzipSync content) as [file|]; [|discriminate].
      now destruct (load _ _ _ _ _ _).
    + split; [intros [= ->]; auto | intros [-> _]; reflexivity].
  - destruct disk as [content|].
    + destruct (ends_with ".xlsx" path) eqn:E; simpl.
      * split.
        -- destruct (unzipSync content) as [file|]; [|discriminate].
           now destruct (load _ _ _ _ _ _).
        -- intros (_ & _ & Hno). exfalso. apply Hno.
           now apply ends_with_iff.
      * split.
        -- intros [= ->]. split; [reflexivity|]. split; [discriminate|].
           intros H. apply ends_with_iff in H. congruence.
        -- intros (-> & _). reflexivity.
    + split; [discriminate | intros (_ & H & _); congruence].
Qed.

Example extension_is_case_sensitive (content : bytes) :
  load_path parse_sheet parse_strings decode unzipSync "Book.XLSX"
    (Some content) [] = inr (NotAnExcelFile "Book.XLSX").
Proof. reflexivity. Qed.

Example missing_file_reported_first :
  load_path parse_sheet parse_strings decode unzipSync "notes.txt" None [] =
    inr (DoesNotExist "notes.txt").
Proof. reflexivity. Qed.

(** X12: what decides a [load] once the archive is unzipped.  It completes
    exactly when the entry [xl/sharedStrings.xml] is there and can be read
    and every worksheet entry whose position is not excluded can be read;
    an excluded entry is never read.  It rejects with "Shared strings not
    found." exactly when that entry is missing, and the check "Sheet with
    index i not found" of the loop never fires, its keys being keys of the
    archive: every other rejection is an exception of the decoder or the
    parser on an entry of the archive. *)
Theorem load_outcomes (path : string) (file : entries) (exclude : list nat) :
  (forall i,
     load parse_sheet parse_strings decode path file exclude <>
       inr (SheetNotFound i)) /\
  (load parse_sheet parse_strings decode path file exclude =
     inr SharedStringsNotFound <->
   sharedStrings_entry ∉ (fst <$> file)) /\
  (forall key,
     load parse_sheet parse_strings decode path file exclude =
       inr (Unreadable key) ->
     key ∈ (fst <$> file)) /\
  ((exists wb,
      load parse_sheet parse_strings decode path file exclude = inl wb) <->
   (exists ss, obj_get file sharedStrings_entry = Some ss /\
               is_Some (read_strings parse_strings decode ss)) /\
   (forall i key b,
      sheet_keys file !! i = Some key ->
      existsb (Nat.eqb i) exclude = false ->
      obj_get file key = Some b ->
      is_Some (read_sheet parse_sheet decode b))).
Proof.
  unfold load.
  destruct (obj_get file sharedStrings_entry) as [ss|] eqn:Hss.
  - assert (Hin : sharedStrings_entry ∈ (fst <$> file))
      by (apply obj_get_elem; eauto).
    destruct (load_sheets parse_sheet decode file exclude (sheet_keys file) 0 [])
      as [m [e|]] eqn:Hload.
    + destruct (load_sheets_error _ _ _ _ _ _ _ _ _ (sheet_keys_in_file file)
                  Hload) as (j & key & b & -> & Hkey & Hnot & Hb & Hr).
      split; [discriminate|]. split; [split; [discriminate | tauto]|].
      split.
      * intros k [= <-]. apply sheet_keys_in_file.
        apply list_elem_of_lookup. eauto.
      * split; [intros [wb H]; discriminate|].
        intros [_ Hall]. destruct (Hall j key b Hkey Hnot Hb) as [ws Hws].
        congruence.
    + destruct (read_strings parse_strings decode ss) as [st|] eqn:Hst.
      * split; [discriminate|]. split; [split; [discriminate | tauto]|].
        split; [discriminate|]. split; [|eauto].
        intros _. split; [exists ss; split; [reflexivity | eauto]|].
        intros i key b Hkey Hnot Hb.
        apply lookup_lt_Some in Hkey as Hlt.
        destruct (load_sheets_get _ _ _ _ _ _ _ _ Hload i) as
          (key' & b' & ws & Hkey' & Hb' & Hws & _); [lia | exact Hnot |].
        rewrite Nat.sub_0_r in Hkey'. exists ws. congruence.
      * split; [discriminate|]. split; [split; [discriminate | tauto]|].
        split; [now intros k [= <-]|].
        split; [intros [wb H]; discriminate|].
        intros [(ss' & [= <-] & [st Hst']) _]. congruence.
  - assert (Hno : sharedStrings_entry ∉ (fst <$> file)).
    { intros Hin. apply obj_get_elem in Hin as [v Hv]. congruence. }
    split; [discriminate|]. split; [tauto|]. split; [discriminate|].
    split; [intros [wb H]; discriminate|].
    intros [(ss & H & _) _]. discriminate.
Qed.

(** An excluded worksheet is not read: the archive whose second worksheet
    is an empty document loads when index 1 is excluded and is rejected when
    it is not. *)
Example excluded_sheet_not_read :
  (exists wb,
     load raw_parse_sheet raw_parse_strings raw_decode "book.xlsx"
       broken_archive [1] = inl wb) /\
  load raw_parse_sheet raw_parse_strings raw_decode "book.xlsx"
    broken_archive [] = inr (Unreadable "xl/worksheets/sheet2.xml").
Proof. split; [eexists|]; reflexivity. Qed.

(** X13: after a [load] that completes, [getSheet(i)] gives a Sheet exactly
    for the positions [i] of the worksheet entries that were not excluded:
    its tree is the parse of entry number [i] in archive order, its table
    the parse of the shared-strings entry; every other index has no
    sheet. *)
Theorem load_registers_sheets (path : string) (file : entries)
    (exclude : list nat) (wb : TinyExcel) :
  load parse_sheet parse_strings decode path file exclude = inl wb ->
  _path wb = path /\ _file wb = file /\
  (exists ss, obj_get file sharedStrings_entry = Some ss /\
              read_strings parse_strings decode ss = Some (_sharedStrings wb)) /\
  forall i,
    getSheet wb i =
    match sheet_keys file !! i with
    | Some key =>
        if existsb (Nat.eqb i) exclude then None
        else (fun ws => mkSheet i ws (_sharedStrings wb))
               <$> (obj_get file key ≫= read_sheet parse_sheet decode)
    | None => None
    end.
Proof.
  unfold load. destruct (obj_get file sharedStrings_entry) as [ss|];
    [|discriminate].
  destruct (load_sheets parse_sheet decode file exclude (sheet_keys file) 0 [])
    as [m [e|]] eqn:Hload; [discriminate|].
  destruct (read_strings parse_strings decode ss) as [st|] eqn:Hst;
    [|discriminate].
  intros [= <-]. simpl. repeat split; eauto.
  intros i. unfold getSheet. simpl.
  pose proof (load_sheets_other parse_sheet decode file exclude
                (sheet_keys file) 0 [] i) as Hout.
  rewrite Hload in Hout. simpl in Hout.
  destruct (sheet_keys file !! i) as [key|] eqn:Hkey.
  - destruct (existsb (Nat.eqb i) exclude) eqn:Hex.
    + rewrite Hout by auto. reflexivity.
    + apply lookup_lt_Some in Hkey as Hlt.
      destruct (load_sheets_get _ _ _ _ _ _ _ _ Hload i) as
        (key' & b & ws & Hkey' & Hb & Hws & ->); [lia | exact Hex |].
      rewrite Nat.sub_0_r in Hkey'. assert (key' = key) as -> by congruence.
      rewrite Hb. simpl. now rewrite Hws.
  - apply lookup_ge_None in Hkey. rewrite Hout by (right; left; lia).
    reflexivity.
Qed.
End LifecycleFacts.

Lemma load_registers_sheets_sample :
  exists wb,
    load raw_parse_sheet raw_parse_strings raw_decode "book.xlsx"
      sample_archive [1] = inl wb /\
    getSheet wb 0 =
      Some (mkSheet 0 (mkWorksheet Absent [("raw", "<worksheet>1</worksheet>")])
              (mkStringTable Absent [("raw", "<sst/>")])) /\
    getSheet wb 1 = None /\
    getSheet wb 2 = None.
Proof.
  eexists. split; [reflexivity|].
  pose proof (load_registers_sheets raw_parse_sheet raw_parse_strings
                raw_decode "book.xlsx" sample_archive [1] _ eq_refl)
    as (_ & _ & _ & H).
  rewrite (H 0), (H 1), (H 2). repeat split.
Defined.

(** * Loading again *)

Section ReloadFacts.
Variable parse_sheet : string -> option Worksheet.
Variable parse_strings : string -> option StringTable.
Variable decode : bytes -> option string.
Variable unzipSync : bytes -> option entries.

(** X14: [load] never empties [this._sheets].  When a loaded workbook is
    loaded again, an index that is excluded this time, or that lies past the
    worksheet entries of the new archive, keeps the tree it had (edits
    included), now bound to the newly parsed shared strings. *)
Theorem reload_keeps_unlisted_sheets (wb wb' : TinyExcel) (content : bytes)
    (file : entries) (exclude : list nat) :
  unzipSync content = Some file ->
  reload parse_sheet parse_strings decode unzipSync wb (Some content) exclude =
    (wb', None) ->
  forall i,
    existsb (Nat.eqb i) exclude = true \/ length (sheet_keys file) <= i ->
    getSheet wb' i =
    (fun sh => mkSheet i (_data sh) (_sharedStrings wb')) <$> getSheet wb i.
Proof.
  intros Hzip Hrun i Hi. unfold reload in Hrun. rewrite Hzip in Hrun.
  destruct (negb (ends_with ".xlsx" (_path wb))); [discriminate|].
  destruct (obj_get file sharedStrings_entry) as [ss|]; [|discriminate].
  pose proof (load_sheets_other parse_sheet decode file exclude
                (sheet_keys file) 0 (_sheets wb) i) as Hout.
  destruct (load_sheets parse_sheet decode file exclude (sheet_keys file) 0
              (_sheets wb)) as [m [e|]]; [discriminate|].
  destruct (read_strings parse_strings decode ss) as [st|]; [|discriminate].
  injection Hrun as <-. unfold getSheet. simpl. simpl in Hout.
  rewrite Hout by (destruct Hi; [right; right | right; left]; auto).
  now destruct (Map_get (_sheets wb) i).
Qed.
End ReloadFacts.

Lemma reload_keeps_unlisted_sheets_sample :
  exists wb',
    reload raw_parse_sheet raw_parse_strings raw_decode
      (fun _ => Some sample_archive) two_sheet_book (Some []) [1] =
      (wb', None) /\
    getSheet wb' 0 =
      Some (mkSheet 0 (mkWorksheet Absent [("raw", "<worksheet>1</worksheet>")])
              (mkStringTable Absent [("raw", "<sst/>")])) /\
    getSheet wb' 1 =
      Some (mkSheet 1 (_data parsed_sheet)
              (mkStringTable Absent [("raw", "<sst/>")])).
Proof.
  eexists. split; [reflexivity|]. split; [reflexivity|].
  rewrite (reload_keeps_unlisted_sheets raw_parse_sheet raw_parse_strings
             raw_decode (fun _ => Some sample_archive) two_sheet_book _ []
             sample_archive [1] eq_refl eq_refl 1); [reflexivity|].
  left. reflexivity.
Defined.

(** * Sheets of one workbook *)

Lemma getSheet_Some (wb : TinyExcel) (i : nat) (sh : Sheet) :
  getSheet wb i = Some sh ->
  Map_get (_sheets wb) i = Some (_data sh) /\ _index sh = i /\
  _stringTable sh = _sharedStrings wb.
Proof.
  unfold getSheet. destruct (Map_get (_sheets wb) i) as [ws|]; [|discriminate].
  intros [= <-]. auto.
Qed.

Lemma cell_at_data (sh1 sh2 : Sheet) (a : string) :
  _data sh1 = _data sh2 -> cell_at sh1 a = cell_at sh2 a.
Proof. intros H. unfold cell_at. now rewrite H. Qed.

(** X16: the Sheets of a workbook share the one table.  Sheet [i] being
    normalized, when a cell of sheet [i] and a cell of another sheet [j]
    hold the same offset, the first of the table with its text, a string
    that is not empty written through sheet [i] is what sheet [j] reads at
    its own cell afterwards. *)
Theorem write_visible_through_other_sheet (wb : TinyExcel) (i j : nat)
    (shi shj : Sheet) (a1 a2 : string) (c1 c2 : Cell) (si : list Si)
    (k : nat) (old V : string) :
  getSheet wb i = Some shi -> getSheet wb j = Some shj -> i <> j ->
  normalized shi = true ->
  letters_then_digits a1 -> letters_then_digits a2 ->
  cell_at shi a1 = Ok (Some c1) -> cell_at shj a2 = Ok (Some c2) ->
  c_v c1 = Some (SNum (Z.of_nat k)) -> c_v c2 = Some (SNum (Z.of_nat k)) ->
  sst_si (_sharedStrings wb) = Many si ->
  (si_t <$> si) !! k = Some (Some (SStr old)) ->
  (forall n, n < k -> (si_t <$> si) !! n <> Some (Some (SStr old))) ->
  V <> EmptyString ->
  exists wb',
    sheet_setCell wb i a1 (SStr V) KString = Some (wb', Ok ()) /\
    sheet_getCell wb' j a2 = Some (Ok (Some (SStr V))).
Proof.
  intros Hshi Hshj Hij Hn Ha1 Ha2 Hat1 Hat2 Hv1 Hv2 Hsi Hk Hfirst HV.
  apply cell_name_matches_iff in Ha1, Ha2.
  destruct (getSheet_Some _ _ _ Hshi) as (Hwsi & Hidx & Hsti).
  destruct (getSheet_Some _ _ _ Hshj) as (Hwsj & _ & _).
  destruct (setCell_result shi a1 (SStr V) KString Hn Ha1)
    as (sh2 & pre & row & post & cells & ci & c0 & texts & f & st' & sh'
        & _ & Htexts & _ & Hrun & _ & Hst' & _ & _ & (idx & _ & Hup) & Hcase).
  assert (c0 = c1) as ->.
  { destruct Hcase as [(_ & E) | (E & _)]; congruence. }
  rewrite Hsti in Htexts, Hup.
  assert (texts = si_t <$> si) as ->.
  { unfold si_texts in Htexts. rewrite Hsi in Htexts. now injection Htexts. }
  rewrite Hv1, (array_get_offset _ _ _ Hk), or_empty_or_null_string in Hup.
  assert (Hfind : list_find (fun t => t = Some (SStr old)) (si_t <$> si) =
                  Some (k, Some (SStr old))).
  { apply list_find_Some. repeat split; auto.
    intros n y Hy Hlt ->. now apply (Hfirst n). }
  assert (Hst : _sharedStrings wb =
                mkStringTable (Many si) (sst_rest (_sharedStrings wb)))
    by (destruct (_sharedStrings wb); simpl in *; now subst).
  rewrite Hst, (getSharedString_hit si _ (SStr old) V k _ Hfind) in Hup.
  injection Hup as <- <-.
  pose proof (setCell_index shi a1 (SStr V) KString) as Hidx'.
  rewrite Hrun in Hidx'. simpl in Hidx'.
  exists (putSheet wb sh'). split.
  - unfold sheet_setCell. now rewrite Hshi, Hrun.
  - unfold sheet_getCell, getSheet, putSheet. simpl.
    rewrite Map_get_set, Hidx', Hidx.
    replace (Nat.eqb i j) with false by (symmetry; apply Nat.eqb_neq; lia).
    rewrite Hwsj. f_equal.
    set (view := mkSheet j (_data shj) (_stringTable sh')).
    assert (Hat : cell_at view a2 = Ok (Some c2))
      by (rewrite <- Hat2; now apply cell_at_data).
    rewrite (getCell_cell_at view a2
               (<[k := Some (SStr V)]> (si_t <$> si)) Ha2).
    + rewrite Hat, Hv2, (array_get_offset _ k (SStr V)).
      * unfold or_null. now rewrite truthy_nonempty.
      * apply list_lookup_insert_eq. now apply lookup_lt_Some in Hk.
    + unfold view. simpl. rewrite Hst'. unfold si_texts. simpl.
      now rewrite alter_text_fmap, alter_const_insert.
Qed.

Lemma write_visible_through_other_sheet_sample :
  exists wb',
    sheet_setCell two_sheet_book 0 "A1" (SStr "bar") KString =
      Some (wb', Ok ()) /\
    sheet_getCell wb' 1 "A2" = Some (Ok (Some (SStr "bar"))).
Proof.
  apply (write_visible_through_other_sheet two_sheet_book 0 1
           (mkSheet 0 (_data parsed_sheet) (_stringTable parsed_sheet))
           (mkSheet 1 (_data parsed_sheet) (_stringTable parsed_sheet))
           "A1" "A2" (parsed_cell "A1" 1) (parsed_cell "A2" 1)
           [mkSi (Some (SStr "x")) []; mkSi (Some (SStr "foo")) []]
           1 "foo" "bar").
  - reflexivity.
  - reflexivity.
  - discriminate.
  - reflexivity.
  - apply cell_name_matches_iff. reflexivity.
  - apply cell_name_matches_iff. reflexivity.
  - reflexivity.
  - reflexivity.
  - reflexivity.
  - reflexivity.
  - reflexivity.
  - reflexivity.
  - intros [|n] Hn; [discriminate | lia].
  - discriminate.
Defined.

(** * Saving again, entry order, and the round trip *)

Section SaveFacts.
Variable clock : Type.
Variable parse_sheet : string -> option Worksheet.
Variable parse_strings : string -> option StringTable.
Variable build_sheet : Worksheet -> string.
Variable build_strings : StringTable -> string.
Variable decode : bytes -> option string.
Variable encode : string -> bytes.
Variable zipSync : clock -> entries -> bytes.

Lemma save_sheets_id (sheets : sheet_map) (file : entries) :
  (forall i ws, (i, ws) ∈ sheets ->
     obj_get file (sheet_entry i) = Some (encode (build_sheet ws))) ->
  save_sheets build_sheet encode file sheets = file.
Proof.
  induction sheets as [|[i ws] sheets IH]; intros H; [reflexivity|].
  rewrite save_sheets_cons, obj_set_same by (apply H; left).
  apply IH. intros j w Hj. apply H. now right.
Qed.

Lemma saved_entries_own (wb : TinyExcel) (i : nat) (ws : Worksheet) :
  NoDup (fst <$> _sheets wb) -> (i, ws) ∈ _sheets wb ->
  obj_get (saved_entries build_sheet build_strings encode wb) (sheet_entry i) =
    Some (encode (build_sheet ws)).
Proof.
  intros Hnd Hin. unfold saved_entries.
  rewrite obj_get_set_ne by (apply not_eq_sym, sheet_entry_not_sharedStrings).
  now apply save_sheets_own.
Qed.

(** X17: [saveBuffer] can be called again at once: the second call leaves
    the workbook as the first call left it and hands [zipSync] the very
    entries the first call handed it.  The two results are [zipSync] of the
    same entries at two readings of the clock. *)
Theorem saveBuffer_twice (now1 now2 : clock) (wb wb1 : TinyExcel)
    (out1 : bytes) :
  NoDup (fst <$> _sheets wb) ->
  saveBuffer build_sheet build_strings encode zipSync now1 wb = (wb1, out1) ->
  out1 = zipSync now1 (_file wb1) /\
  saveBuffer build_sheet build_strings encode zipSync now2 wb1 =
    (wb1, zipSync now2 (_file wb1)).
Proof.
  intros Hnd Hrun. unfold saveBuffer in Hrun. injection Hrun as <- <-.
  split; [reflexivity|]. unfold saveBuffer. simpl.
  set (file' := saved_entries build_sheet build_strings encode wb).
  assert (E : saved_entries build_sheet build_strings encode
                (mkTinyExcel (_path wb) file' (_sheets wb) (_sharedStrings wb))
              = file').
  { unfold saved_entries at 1. simpl. rewrite save_sheets_id.
    - apply obj_set_same. unfold file', saved_entries. apply obj_get_set_eq.
    - intros i ws Hin. now apply saved_entries_own. }
  now rewrite E.
Qed.

Lemma save_sheets_keys (sheets : sheet_map) (file : entries) :
  exists added,
    (fst <$> save_sheets build_sheet encode file sheets) =
      (fst <$> file) ++ added /\
    Forall (fun key => (key ∉ (fst <$> file)) /\
                       exists i, i ∈ (fst <$> sheets) /\ key = sheet_entry i)
           added.
Proof.
  revert file. induction sheets as [|[i ws] sheets IH]; intros file.
  - exists []. split; [now rewrite app_nil_r | constructor].
  - rewrite save_sheets_cons.
    destruct (IH (obj_set file (sheet_entry i) (encode (build_sheet ws))))
      as (added & Hkeys & Hadded).
    rewrite obj_set_keys in Hkeys, Hadded.
    destruct (decide (sheet_entry i ∈ fst <$> file)) as [Hin|Hin].
    + exists added. split; [exact Hkeys|].
      eapply Forall_impl; [exact Hadded|]. simpl.
      intros key (Hk & j & Hj & ->). split; [exact Hk|].
      exists j. split; [now right | reflexivity].
    + exists (sheet_entry i :: added). split.
      * now rewrite Hkeys, <- app_assoc.
      * constructor.
        -- split; [exact Hin|]. exists i. split; [left | reflexivity].
        -- eapply Forall_impl; [exact Hadded|]. simpl.
           intros key (Hk & j & Hj & ->). split.
           ++ intros H. apply Hk. apply elem_of_app. now left.
           ++ exists j. split; [now right | reflexivity].
Qed.

(** X18: [saveBuffer] keeps the archive listing in order: every entry of
    the archive stays at its position, and what is added after them are
    only names that were missing, each the shared-strings entry or the
    worksheet entry of a loaded index. *)
Theorem saveBuffer_keeps_entry_order (now : clock) (wb : TinyExcel) :
  exists added,
    (fst <$> _file (fst (saveBuffer build_sheet build_strings encode zipSync
                           now wb)))
      = (fst <$> _file wb) ++ added /\
    Forall (fun key =>
              (key ∉ (fst <$> _file wb)) /\
              (key = sharedStrings_entry \/
               exists i, i ∈ (fst <$> _sheets wb) /\ key = sheet_entry i))
           added.
Proof.
  unfold saveBuffer, saved_entries. simpl.
  destruct (save_sheets_keys (_sheets wb) (_file wb)) as (added & Hkeys & Hadded).
  rewrite obj_set_keys, Hkeys.
  destruct (decide (sharedStrings_entry ∈ (fst <$> _file wb) ++ added))
    as [Hin|Hin].
  - exists added. split; [reflexivity|].
    eapply Forall_impl; [exact Hadded|]. simpl.
    intros key (Hk & Hi). auto.
  - exists (added ++ [sharedStrings_entry]). split; [now rewrite app_assoc|].
    apply Forall_app. split.
    + eapply Forall_impl; [exact Hadded|]. simpl. intros key (Hk & Hi). auto.
    + constructor; [|constructor]. split; [|now left].
      intros H. apply Hin. apply elem_of_app. now left.
Qed.

(** X19: the round trip.  When the worksheet entries of the archive are
    named sheet1.xml, sheet2.xml, ... in archive order, and serializing the
    parse of each managed entry gives its bytes back, [load] followed at
    once by [saveBuffer] hands [zipSync] the archive as it was read, entry
    for entry, whatever sheets were excluded. *)
Theorem load_save_round_trip (path : string) (file : entries)
    (exclude : list nat) (wb : TinyExcel) (now : clock) :
  sheet_keys file = sheet_entry <$> seq 0 (length (sheet_keys file)) ->
  (forall key b ws, key ∈ sheet_keys file -> obj_get file key = Some b ->
     read_sheet parse_sheet decode b = Some ws ->
     encode (build_sheet ws) = b) ->
  (forall b st, obj_get file sharedStrings_entry = Some b ->
     read_strings parse_strings decode b = Some st ->
     encode (build_strings st) = b) ->
  load parse_sheet parse_strings decode path file exclude = inl wb ->
  saveBuffer build_sheet build_strings encode zipSync now wb =
    (wb, zipSync now file).
Proof.
  intros Hnames Hsheet Hstrings Hload.
  pose proof (load_NoDup _ _ _ _ _ _ _ Hload) as Hnd.
  unfold load in Hload.
  destruct (obj_get file sharedStrings_entry) as [ss|] eqn:Hss; [|discriminate].
  destruct (load_sheets parse_sheet decode file exclude (sheet_keys file) 0 [])
    as [m [e|]] eqn:Hm; [discriminate|].
  destruct (read_strings parse_strings decode ss) as [st|] eqn:Hst;
    [|discriminate].
  injection Hload as <-. simpl in Hnd.
  assert (E : saved_entries build_sheet build_strings encode
                (mkTinyExcel path file m st) = file).
  { unfold saved_entries. simpl. rewrite save_sheets_id.
    - apply obj_set_same. now rewrite (Hstrings ss st eq_refl Hst).
    - intros i ws Hin. apply (elem_Map_get m i ws Hnd) in Hin.
      pose proof (load_sheets_other parse_sheet decode file exclude
                    (sheet_keys file) 0 [] i) as Hout.
      rewrite Hm in Hout. simpl in Hout.
      destruct (existsb (Nat.eqb i) exclude) eqn:Hex;
        [rewrite Hout in Hin by auto; discriminate|].
      destruct (le_lt_dec (length (sheet_keys file)) i) as [Hge|Hlt];
        [rewrite Hout in Hin by (right; left; lia); discriminate|].
      destruct (load_sheets_get _ _ _ _ _ _ _ _ Hm i) as
        (key & b & ws' & Hkey & Hb & Hws & Hget); [lia | exact Hex |].
      rewrite Nat.sub_0_r in Hkey. assert (ws' = ws) as -> by congruence.
      assert (key = sheet_entry i) as ->.
      { rewrite Hnames, list_lookup_fmap, lookup_seq_lt in Hkey by lia.
        now injection Hkey. }
      rewrite Hb. f_equal. symmetry. apply (Hsheet (sheet_entry i) b ws); auto.
      rewrite Hnames. apply list_elem_of_fmap. exists i. split; [reflexivity|].
      apply elem_of_seq. lia. }
  unfold saveBuffer. now rewrite E.
Qed.

(** X20: what [setCell] leaves in the tree is what [saveBuffer] writes: after
    a call through the Sheet of index [i], completed or thrown, the entry of
    that sheet holds the serialization of the tree as the call left it, and
    the shared-strings entry that of the table. *)
Theorem edits_are_saved (wb wb' : TinyExcel) (i : nat) (a : string)
    (v : scalar) (k : kind) (r : result unit) (sh : Sheet) :
  NoDup (fst <$> _sheets wb) ->
  getSheet wb i = Some sh ->
  sheet_setCell wb i a v k = Some (wb', r) ->
  obj_get (saved_entries build_sheet build_strings encode wb') (sheet_entry i) =
    Some (encode (build_sheet (_data (fst (setCell sh a v k))))) /\
  obj_get (saved_entries build_sheet build_strings encode wb')
    sharedStrings_entry =
    Some (encode (build_strings (_stringTable (fst (setCell sh a v k))))).
Proof.
  intros Hnd Hsh Hrun. unfold sheet_setCell in Hrun. rewrite Hsh in Hrun.
  destruct (getSheet_Some _ _ _ Hsh) as (Hws & Hidx & _).
  pose proof (setCell_index sh a v k) as Hidx'.
  destruct (setCell sh a v k) as [sh' r']. simpl in *.
  injection Hrun as <- <-. split.
  - apply saved_entries_own.
    + unfold putSheet. simpl. now apply Map_set_NoDup.
    + unfold putSheet. simpl. apply Map_get_elem.
      now rewrite Map_get_set, Hidx', Hidx, Nat.eqb_refl.
  - unfold saved_entries, putSheet. simpl. apply obj_get_set_eq.
Qed.
End SaveFacts.

Lemma saveBuffer_twice_sample :
  exists (wb1 : TinyExcel) (out1 : bytes),
    saveBuffer sample_build_sheet sample_build_strings text_bytes sample_zip
      1000%Z sample_book = (wb1, out1) /\
    out1 = sample_zip 1000 (_file wb1) /\
    saveBuffer sample_build_sheet sample_build_strings text_bytes sample_zip
      3000%Z wb1 = (wb1, sample_zip 3000 (_file wb1)) /\
    sample_zip 3000 (_file wb1) <> out1.
Proof.
  eexists _, _. split; [reflexivity|].
  destruct (saveBuffer_twice Z sample_build_sheet sample_build_strings
              text_bytes sample_zip 1000%Z 3000%Z sample_book _ _
              (NoDup_singleton 0) eq_refl) as [H1 H2].
  split; [exact H1|]. split; [exact H2|]. discriminate.
Defined.

Lemma raw_codec_round_trip (b : bytes) :
  (forall ws, read_sheet raw_parse_sheet raw_decode b = Some ws ->
     text_bytes (raw_build_sheet ws) = b) /\
  (forall st, read_strings raw_parse_strings raw_decode b = Some st ->
     text_bytes (raw_build_strings st) = b).
Proof.
  unfold read_sheet, read_strings, raw_parse_sheet, raw_parse_strings,
    raw_decode, text_bytes. simpl.
  split; intros x; destruct (String.eqb _ _); intros [= <-]; simpl;
    apply list_byte_of_string_of_list_byte.
Qed.

Lemma load_save_round_trip_sample :
  exists wb,
    load raw_parse_sheet raw_parse_strings raw_decode "book.xlsx"
      sample_archive [1] = inl wb /\
    saveBuffer raw_build_sheet raw_build_strings text_bytes sample_zip 1000%Z
      wb = (wb, sample_zip 1000 sample_archive).
Proof.
  eexists. split; [reflexivity|].
  apply (load_save_round_trip Z raw_parse_sheet raw_parse_strings
           raw_build_sheet raw_build_strings raw_decode text_bytes sample_zip
           "book.xlsx" sample_archive [1]).
  - reflexivity.
  - intros key b ws _ _. apply raw_codec_round_trip.
  - intros b st _. apply raw_codec_round_trip.
  - reflexivity.
Defined.

Lemma edits_are_saved_sample :
  exists wb',
    sheet_setCell two_sheet_book 0 "C9" (SStr "new") KString =
      Some (wb', Ok ()) /\
    obj_get (saved_entries sample_build_sheet sample_build_strings text_bytes
               wb') (sheet_entry 0) =
      Some (text_bytes "<worksheet rows=3/>") /\
    obj_get (saved_entries sample_build_sheet sample_build_strings text_bytes
               wb') sharedStrings_entry =
      Some (text_bytes "<sst/>").
Proof.
  eexists. split; [reflexivity|].
  apply (edits_are_saved sample_build_sheet sample_build_strings text_bytes
           two_sheet_book _ 0 "C9" (SStr "new") KString (Ok ())
           (mkSheet 0 (_data parsed_sheet) (_stringTable parsed_sheet))).
  - simpl. apply NoDup_cons. split; [|apply NoDup_singleton].
    intros H. apply list_elem_of_singleton in H. discriminate.
  - reflexivity.
  - reflexivity.
Defined.

(** * What other cells read after a write *)





(** X22: a number write or a formula write changes what no other cell
    reads: for every other address [getCell] returns what it returned
    before, the table being untouched. *)
Theorem number_formula_write_keeps_readings (sh : Sheet) (a a2 : string)
    (v : scalar) (k : kind) :
  normalized sh = true ->
  letters_then_digits a -> letters_then_digits a2 -> a2 <> a ->
  k = KFormula \/ (exists n, v = SNum n) ->
  exists sh',
    setCell sh a v k = (sh', Ok ()) /\
    getCell sh' a2 = getCell sh a2.
Proof.
  intros Hn Ha Ha2 Hne Hkind. apply cell_name_matches_iff in Ha, Ha2.
  destruct (setCell_result sh a v k Hn Ha)
    as (sh2 & pre & row & post & cells & ci & c & texts & f & st' & sh'
        & _ & Htexts & _ & Hrun & _ & Hst' & _ & _ & Hk & _).
  exists sh'. split; [exact Hrun|].
  assert (st' = _stringTable sh) as ->.
  { destruct Hkind as [-> | [n ->]]; [now destruct Hk|].
    destruct k; now destruct Hk. }
  rewrite (getCell_cell_at sh' a2 texts Ha2) by (now rewrite Hst').
  rewrite (getCell_cell_at sh a2 texts Ha2 Htexts).
  now rewrite (other_cells_kept sh sh' a a2 v k Hn Ha Hne Hrun).
Qed.

Lemma number_formula_write_keeps_readings_sample :
  exists sh',
    setCell parsed_sheet "A1" (SNum 5) KString = (sh', Ok ()) /\
    getCell sh' "A2" = getCell parsed_sheet "A2".
Proof.
  apply (number_formula_write_keeps_readings parsed_sheet "A1" "A2" (SNum 5)
           KString).
  - reflexivity.
  - apply cell_name_matches_iff. reflexivity.
  - apply cell_name_matches_iff. reflexivity.
  - discriminate.
  - right. now exists 5%Z.
Defined.
